(** * stargz-registry: remote layer reader and multi-layer lookup

    A shallow embedding of the two Go packages of the repository,

    - package [remote]: [Remote.Layers], [Layer.ReadAt], [Layer.fetch]
      and [redirect];
    - package [main] (cmd/ecrane): [run],

    together with the properties of the specification that concern
    them.  Go functions returning [(T, error)] are embedded as functions
    returning a pair whose second component is an [option error]
    ([None] is Go's [nil]); the network and the standard output are
    threaded explicitly through a small state monad. *)

From Stdlib Require Import ZArith List String Ascii DecimalString DecimalPos Lia.
From Stdlib Require Import Strings.Byte.
From stdpp Require Import base option list gmap strings.

Local Open Scope string_scope.
Local Open Scope list_scope.
Local Open Scope Z_scope.

(** ** Go values *)

(** [int64]: two's complement wrap-around of a mathematical integer. *)
Definition min_int64 : Z := - 2 ^ 63.
Definition max_int64 : Z := 2 ^ 63 - 1.

Definition int64 (z : Z) : Z := (z + 2 ^ 63) mod 2 ^ 64 - 2 ^ 63.

Definition int64_add (a b : Z) : Z := int64 (a + b).
Definition int64_sub (a b : Z) : Z := int64 (a - b).

Definition in_int64 (z : Z) : Prop := min_int64 <= z <= max_int64.

(** The [%d] verb of [fmt.Sprintf]. *)
Definition fmt_d (z : Z) : string := NilZero.string_of_int (Z.to_int z).

(** [len] of a slice, as a Go [int]. *)
Definition len {A} (p : list A) : Z := Z.of_nat (length p).

(** Errors.  The constructors follow the [fmt.Errorf] calls of the two
    packages; [ErrExternal] stands for an error handed over by a library
    or by the transport. *)
Inductive error : Type :=
  | ErrExternal (msg : string)
  | EOF                                          (* io.EOF *)
  | ErrUnexpectedEOF                             (* io.ErrUnexpectedEOF *)
  | ErrMakeRequest (cause : error)     (* failed to make request to the registry: %w *)
  | ErrRequest (cause : error)                   (* failed to request: %w *)
  | ErrRegistryCode (code : Z)     (* failed to access to the registry with code %v *)
  | ErrInvalidMediaType (mediaType : string) (cause : error)
                                                 (* invalid media type %q: %w *)
  | ErrMultipart                                 (* multipart not supported *)
  | ErrUnexpectedStatus (status : string)        (* unexpected status code: %v *)
  | ErrURL (method url : string) (cause : error).
      (* url.Error of http.Client: Op is the capitalised method *)

(** ** net/http *)

(** [http.Header] is a [map[string][]string].  The keys used by the
    source ([Range], [Accept-Encoding], [Location], [Content-Type]) are
    already in canonical form, so key canonicalisation is the identity
    on them and is left out. *)
Definition Header_Get (h : gmap string (list string)) (key : string) : string :=
  match h !! key with
  | Some (v :: _) => v
  | _ => ""
  end.

Definition Header_Add (h : gmap string (list string)) (key value : string)
  : gmap string (list string) :=
  <[key := default [] (h !! key) ++ [value]]> h.

Definition Header_Set (h : gmap string (list string)) (key value : string)
  : gmap string (list string) :=
  <[key := [value]]> h.

Record Request := mkRequest {
  Method : string;
  URL : string;
  ReqHeader : gmap string (list string);
  Close : bool
}.

(** A response body is a stream: it yields [data] and then either ends
    ([fault = None], io.EOF) or breaks with the error [fault]. *)
Record Body := mkBody {
  data : list byte;
  fault : option error
}.

Record Response := mkResponse {
  Status : string;
  StatusCode : Z;
  ResHeader : gmap string (list string);
  ResBody : Body
}.

(** [http.RoundTripper]: the outcome of one exchange, a response or a
    transport error (a probe that runs into its deadline is such an
    error). *)
Definition RoundTripper : Type := Request -> Response + error.

Definition StatusOK : Z := 200.
Definition StatusPartialContent : Z := 206.

(** [url.URL], with the three fields the source sets. *)
Record url_URL := mkURL {
  Scheme : string;
  Host : string;
  Path : string
}.

(** The parts of the Go standard library whose results the source only
    passes on. *)
Class GoStd := {
  (** [url.Parse] as used by [http.NewRequestWithContext]: [None] when
      the URL is accepted. *)
  url_Parse : string -> option error;
  (** [mime.ParseMediaType], without the parameter map the source drops. *)
  mime_ParseMediaType : string -> string * option error;
  (** [path.Join]. *)
  path_Join : list string -> string;
  (** [(url.URL).String] *)
  URL_String : url_URL -> string;
  (** [URL.Parse] of net/url: a [Location] resolved against the URL of the
      request that was answered. *)
  url_ResolveReference : string -> string -> string + error;
  (** [refererForURL] of net/http: the [Referer] of a hop from the URL
      of the last request to the new URL, or the empty string. *)
  http_refererForURL : string -> string -> string;
  (** [stripPassword] of net/http: the URL as shown in a [url.Error]. *)
  http_stripPassword : string -> string
}.

(** [io.ReadFull(rc, p)]: the count, the error and the buffer afterwards. *)
Definition io_ReadFull (rc : Body) (p : list byte) : (Z * option error) * list byte :=
  if (length p <=? length (data rc))%nat then
    ((len p, None), firstn (length p) (data rc))
  else
    ((len (data rc),
      Some (match fault rc with
            | Some EOF | None =>
                if (length (data rc) =? 0)%nat then EOF else ErrUnexpectedEOF
            | Some e => e
            end)),
     data rc ++ skipn (length (data rc)) p).

(** ** The world: requests handed to the network, lines printed *)

Record World := mkWorld {
  sent : list Request;
  stdout : list string
}.

Definition IO (A : Type) : Type := World -> A * World.

Global Instance IO_ret : MRet IO := fun A a w => (a, w).

Global Instance IO_bind : MBind IO :=
  fun A B k m w => let (a, w') := m w in k a w'.

(** [tr.RoundTrip(req)]: one exchange. *)
Definition roundTrip (tr : RoundTripper) (req : Request) : IO (Response + error) :=
  fun w => (tr req, mkWorld (sent w ++ [req]) (stdout w)).

(** [fmt.Println] of one string. *)
Definition Println (s : string) : IO unit :=
  fun w => (tt, mkWorld (sent w) (stdout w ++ [s])).

Definition w0 : World := mkWorld [] [].

(** [http.NewRequestWithContext(ctx, method, url, nil)] *)
Definition NewRequest {go : GoStd} (method url : string) : Request + error :=
  match url_Parse url with
  | Some e => inr e
  | None => inl (mkRequest method url ∅ false)
  end.

(** [redirectBehavior] of net/http for a request without a body: the
    statuses on which the client goes on to the [Location], and the
    method of the next request. *)
Definition shouldRedirect (code : Z) : bool :=
  (code =? 301) || (code =? 302) || (code =? 303) || (code =? 307) || (code =? 308).

Definition redirectMethod (code : Z) (reqMethod : string) : string :=
  if ((code =? 301) || (code =? 302) || (code =? 303))
     && negb (String.eqb reqMethod "GET" || String.eqb reqMethod "HEAD")
  then "GET" else reqMethod.

(** The request of the next hop: a new request for [u] that carries the
    headers of the first request [ireq] and, when there is one, the
    [Referer].  (The client withholds [Authorization], [Cookie] and the
    like from another domain; the requests of the source carry none of
    these.) *)
Definition hop_request {go : GoStd} (ireq req : Request) (code : Z) (u : string)
  : Request :=
  let ref := http_refererForURL (URL req) u in
  mkRequest (redirectMethod code (Method req)) u
    (if String.eqb ref "" then ReqHeader ireq
     else Header_Set (ReqHeader ireq) "Referer" ref)
    false.

(** The loop of [Client.do] of net/http with the default redirect policy,
    from the request [req] on, when [n] more hops are allowed.  Errors
    come back wrapped in a [url.Error]; when the policy stops the
    chain, the last response comes back with the error. *)
Fixpoint Do_loop {go : GoStd} (tr : RoundTripper) (ireq : Request) (n : nat)
    (req : Request) : IO (option Response * option error) :=
  r ← roundTrip tr req;
  match r with
  | inr err =>
      mret (None, Some (ErrURL (Method ireq) (http_stripPassword (URL req)) err))
  | inl resp =>
      if shouldRedirect (StatusCode resp) then
        let loc := Header_Get (ResHeader resp) "Location" in
        if String.eqb loc "" then mret (Some resp, None)
        else
          match url_ResolveReference (URL req) loc with
          | inr err =>
              mret (None,
                    Some (ErrURL (Method ireq) (http_stripPassword (URL req))
                            (ErrExternal "failed to parse Location header")))
          | inl u =>
              match n with
              | O =>
                  mret (Some resp,
                        Some (ErrURL (Method ireq) loc
                                (ErrExternal "stopped after 10 redirects")))
              | S n =>
                  Do_loop tr ireq n (hop_request ireq req (StatusCode resp) u)
              end
          end
      else mret (Some resp, None)
  end.

(** [(&http.Client{Transport: tr}).Do(req)]: at most ten requests. *)
Definition client_Do {go : GoStd} (tr : RoundTripper) (req : Request)
  : IO (option Response * option error) :=
  Do_loop tr req 9 req.

(** [time.Second], in nanoseconds. *)
Definition Second : Z := 1000000000.

(** ** go-containerregistry *)

(** [v1.Hash] *)
Record Hash := mkHash {
  Algorithm : string;
  Hex : string
}.

Definition Hash_String (h : Hash) : string := Algorithm h +:+ ":" +:+ Hex h.

Global Instance Hash_eq_dec : EqDecision Hash.
Proof. solve_decision. Defined.

Global Instance Hash_countable : Countable Hash :=
  inj_countable' (fun h => (Algorithm h, Hex h)) (fun p => mkHash p.1 p.2)
    (fun h => match h with mkHash _ _ => eq_refl end).

(** The registry side of an image ([name.Reference], [v1.Image],
    [v1.Layer]): what their methods return. *)
Record Reference := mkReference {
  Context_Scheme : string;
  Context_RegistryStr : string;
  Context_RepositoryStr : string
}.

Record v1_Layer := mkV1Layer {
  v1_Size : Z * option error;
  v1_Digest : Hash * option error
}.

Record v1_Image := mkV1Image {
  v1_Layers : list v1_Layer * option error
}.

(** [authn.Authenticator] is opaque to the source. *)
Class Registry := {
  Authenticator : Type;
  name_ParseReference : string -> Reference + error;
  DefaultKeychain_Resolve : Reference -> Authenticator + error;
  transport_New : Reference -> Authenticator -> RoundTripper + error;
  remote_Image : Reference -> RoundTripper -> v1_Image + error
}.

Module remote.

Section Package.
Context {go : GoStd} {ggcr : Registry}.

Record Layer := mkLayer {
  digest : Hash;
  url : string;
  blobURL : string;
  size : Z;
  rt : RoundTripper
}.

Definition Digest (l : Layer) : Hash := digest l.
Definition Size (l : Layer) : Z := size l.

(** [func (l *Layer) fetch(ctx, begin, end)] *)
Definition fetch (l : Layer) (begin end_ : Z) : IO (option Body * option error) :=
  match NewRequest "GET" (url l) with
  | inl req =>
      let req := mkRequest (Method req) (URL req)
                   (Header_Add (ReqHeader req) "Range"
                      ("bytes=" +:+ fmt_d begin +:+ "-" +:+ fmt_d end_))
                   (Close req) in
      let req := mkRequest (Method req) (URL req)
                   (Header_Add (ReqHeader req) "Accept-Encoding" "identity")
                   (Close req) in
      let req := mkRequest (Method req) (URL req) (ReqHeader req) false in
      '(res, err) ← client_Do (rt l) req;
      match err, res with
      | Some err, _ => mret (None, Some err)
      | None, Some res =>
          if StatusCode res =? StatusOK then mret (Some (ResBody res), None)
          else if StatusCode res =? StatusPartialContent then
            let '(mediaType, err) :=
              mime_ParseMediaType (Header_Get (ResHeader res) "Content-Type") in
            match err with
            | Some err => mret (None, Some (ErrInvalidMediaType mediaType err))
            | None =>
                if String.prefix "multipart/" mediaType
                then mret (None, Some ErrMultipart)
                else mret (Some (ResBody res), None)
            end
          else mret (None, Some (ErrUnexpectedStatus (Status res)))
      | None, None =>
          mret (None, None)   (* not reached: see [Do_loop_some] *)
      end
  | inr err => mret (None, Some err)
  end.

(** [func (l *Layer) ReadAt(p []byte, offset int64) (int, error)]; the
    third component is [p] after the call. *)
Definition ReadAt (l : Layer) (p : list byte) (offset : Z)
  : IO ((Z * option error) * list byte) :=
  if (len p =? 0) || (offset >? size l) then mret ((0, None), p)
  else
    '(rc, err) ← fetch l offset (int64_sub (int64_add offset (len p)) 1);
    match err, rc with
    | Some err, _ => mret ((0, Some err), p)
    | None, Some rc => mret (io_ReadFull rc p)
    | None, None => mret ((0, None), p)   (* not reached: see [fetch_ok_body] *)
    end.

(** [func redirect(ctx, blobURL, tr, timeout) (url string, err error)].
    The deadline [timeout] bounds the exchange; an exchange that exceeds
    it is an error of [tr]. *)
Definition redirect (blobURL : string) (tr : RoundTripper) (timeout : Z)
  : IO (string * option error) :=
  match NewRequest "GET" blobURL with
  | inl req =>
      let req := mkRequest (Method req) (URL req) (ReqHeader req) false in
      let req := mkRequest (Method req) (URL req)
                   (Header_Set (ReqHeader req) "Range" "bytes=0-1") (Close req) in
      r ← roundTrip tr req;
      match r with
      | inr err => mret ("", Some (ErrRequest err))
      | inl res =>
          if Z.quot (StatusCode res) 100 =? 2 then mret (blobURL, None)
          else
            let redir := Header_Get (ResHeader res) "Location" in
            if negb (String.eqb redir "") && (Z.quot (StatusCode res) 100 =? 3)
            then mret (redir, None)
            else mret ("", Some (ErrRegistryCode (StatusCode res)))
      end
  | inr err => mret ("", Some (ErrMakeRequest err))
  end.

Record Remote := mkRemote {
  ref : Reference;
  Remote_rt : RoundTripper;
  image : v1_Image
}.

(** [func New(s string) (Remote, error)]; the zero [Remote] that comes
    with an error is not represented. *)
Definition New (s : string) : Remote + error :=
  match name_ParseReference s with
  | inr err => inr err
  | inl ref =>
      match DefaultKeychain_Resolve ref with
      | inr err => inr err
      | inl auth =>
          match transport_New ref auth with
          | inr err => inr err
          | inl t =>
              match remote_Image ref t with
              | inr err => inr err
              | inl img => inl (mkRemote ref t img)
              end
          end
      end
  end.

(** The body of [for _, layer := range layers] in [Layers], with the
    slice [eLayers] built so far. *)
Fixpoint Layers_loop (r : Remote) (repoURL : url_URL) (layers : list v1_Layer)
    (eLayers : list Layer) : IO (list Layer * option error) :=
  match layers with
  | [] => mret (eLayers, None)
  | layer :: layers =>
      let '(size, err) := v1_Size layer in
      match err with
      | Some err => mret ([], Some err)
      | None =>
          let '(digest, err) := v1_Digest layer in
          match err with
          | Some err => mret ([], Some err)
          | None =>
              let blobURL := repoURL in
              let blobURL :=
                mkURL (Scheme blobURL) (Host blobURL)
                  (path_Join [Path blobURL; "blobs"; Hash_String digest]) in
              '(redirectedURL, err) ←
                 redirect (URL_String blobURL) (Remote_rt r) (30 * Second);
              match err with
              | Some err => mret ([], Some err)
              | None =>
                  Layers_loop r repoURL layers
                    (eLayers ++ [mkLayer digest redirectedURL
                                   (URL_String blobURL) size (Remote_rt r)])
              end
          end
      end
  end.

(** [func (r Remote) Layers(ctx) ([]*Layer, error)]; Go's [nil] slice
    is the empty list. *)
Definition Layers (r : Remote) : IO (list Layer * option error) :=
  let '(layers, err) := v1_Layers (image r) in
  match err with
  | Some err => mret ([], Some err)
  | None =>
      let repoURL :=
        mkURL (Context_Scheme (ref r)) (Context_RegistryStr (ref r))
          ("/v2/" +:+ Context_RepositoryStr (ref r) +:+ "/") in
      Layers_loop r repoURL layers []
  end.

End Package.
End remote.

(** ** stargz-snapshotter/estargz *)

(** The archive reader, seen from [run]: [estargz_Open l] is
    [estargz.Open(io.NewSectionReader(l, 0, l.Size()))], [Lookup] gives
    the [Name] of the entry it finds.  The ranged reads the reader
    performs through [ReadAt] are not entered in the world of [run]. *)
Class Estargz := {
  Reader : Type;
  SectionReader : Type;
  estargz_Open : remote.Layer -> Reader + error;
  Reader_Lookup : Reader -> string -> option string;
  Reader_OpenFile : Reader -> string -> SectionReader + error;
  io_ReadAll : SectionReader -> list byte * option error
}.

Module main.

Import remote.

Section Package.
Context {go : GoStd} {ggcr : Registry} {sgz : Estargz}.

(** The function literal handed to [g.Go].  [l] is the copy of the loop
    variable made by [l := layer]; [layer] is the loop variable itself,
    which the literal reads when it stores its payload.  The result is
    the [sync.Map] afterwards and the error returned. *)
Definition worker (filePath : string) (l layer : Layer)
    (result : gmap Hash (list byte)) : gmap Hash (list byte) * option error :=
  match estargz_Open l with
  | inr err => (result, Some err)
  | inl esgz =>
      match Reader_Lookup esgz filePath with
      | Some e_Name =>
          match Reader_OpenFile esgz e_Name with
          | inr err => (result, Some err)
          | inl sr =>
              let '(b, err) := io_ReadAll sr in
              match err with
              | Some err => (result, Some err)
              | None => (<[Digest layer := b]> result, None)
              end
          end
      | None => (result, None)
      end
  end.

(** [errgroup.Group]: [g.err] is set once, by the first function that
    returns an error. *)
Definition Group_done (g : option error) (err : option error) : option error :=
  match g with
  | Some _ => g
  | None => err
  end.

(** The fan-out.  A worker touches the shared state once, when it
    stores its payload or reports its error, so a run of the group is
    the sequence of these steps.  A step [(i, j)] is the worker started
    for [layers[i]] finishing while the loop variable [layer] holds
    [layers[j]].  The derived context is not consulted by the workers:
    every worker runs to its end. *)
Fixpoint Go_all (filePath : string) (layers : list Layer) (sched : list (nat * nat))
    (result : gmap Hash (list byte)) (g : option error)
  : gmap Hash (list byte) * option error :=
  match sched with
  | [] => (result, g)
  | (i, j) :: sched =>
      match layers !! i, layers !! j with
      | Some l, Some layer =>
          let '(result, err) := worker filePath l layer result in
          Go_all filePath layers sched result (Group_done g err)
      | _, _ => Go_all filePath layers sched result g
      end
  end.

(** Schedules of a group over [n] layers: every worker finishes once,
    and worker [i] reads the loop variable in iteration [i] or later
    (in iteration [i] itself when each iteration has its own variable,
    as from Go 1.22). *)
Definition schedule (n : nat) (sched : list (nat * nat)) : Prop :=
  sched.*1 ≡ₚ seq 0 n /\ Forall (fun ij => (ij.1 <= ij.2 < n)%nat) sched.

(** [for i := len(layers) - 1; i >= 0; i--], entered with [i = n - 1]. *)
Fixpoint scan (layers : list Layer) (result : gmap Hash (list byte)) (n : nat)
  : IO unit :=
  match n with
  | O => mret tt
  | S i =>
      match layers !! i with
      | Some layer =>
          match result !! Digest layer with
          | None => scan layers result i
          | Some v =>
              _ ← Println (string_of_list_byte v);
              scan layers result i
          end
      | None => mret tt
      end
  end.

(** [func run() error], on the arguments [os.Args] and a schedule of
    its workers. *)
Definition run (args : list string) (sched : list (nat * nat)) : IO (option error) :=
  if negb (len args =? 3) then
    _ ← Println "Usage: ecrane IMAGE_NAME FILE_PATH";
    mret None
  else
    let imageName := nth 1 args "" in
    let filePath := nth 2 args "" in
    match New imageName with
    | inr err => mret (Some err)
    | inl r =>
        '(layers, err) ← Layers r;
        match err with
        | Some err => mret (Some err)
        | None =>
            let '(result, err) := Go_all filePath layers sched ∅ None in
            match err with
            | Some err => mret (Some err)
            | None =>
                _ ← scan layers result (length layers);
                mret None
            end
        end
    end.

End Package.
End main.

(** ** A simulated environment

    Executable stand-ins for the libraries and for a registry, used to
    run the embedding on concrete inputs.  The general theorems below do
    not depend on them. *)
Module Sim.

Import remote.

(** [strings.Cut] on a one-byte separator. *)
Fixpoint cut (c : ascii) (s : string) : option (string * string) :=
  match s with
  | EmptyString => None
  | String a s' =>
      if Ascii.eqb a c then Some (EmptyString, s')
      else match cut c s' with
           | Some (l, r) => Some (String a l, r)
           | None => None
           end
  end.

Fixpoint strip_prefix (pre s : string) : option string :=
  match pre, s with
  | EmptyString, _ => Some s
  | String a pre, String b s => if Ascii.eqb a b then strip_prefix pre s else None
  | String _ _, EmptyString => None
  end.

Definition lower (a : ascii) : ascii :=
  let n := nat_of_ascii a in
  if ((65 <=? n) && (n <=? 90))%nat then ascii_of_nat (n + 32) else a.

Fixpoint map_string (f : ascii -> ascii) (s : string) : string :=
  match s with
  | EmptyString => EmptyString
  | String a s => String (f a) (map_string f s)
  end.

Definition is_space (a : ascii) : bool :=
  let n := nat_of_ascii a in ((n =? 32) || ((9 <=? n) && (n <=? 13)))%nat.

Fixpoint trim_left (s : string) : string :=
  match s with
  | String a s' => if is_space a then trim_left s' else s
  | EmptyString => EmptyString
  end.

Definition trim (s : string) : string :=
  String.rev (trim_left (String.rev (trim_left s))).

(** The media type proper of [mime.ParseMediaType]: the text before the
    first [;], in lower case and trimmed; an empty one is rejected.
    Parameters are not examined. *)
Definition ParseMediaType (v : string) : string * option error :=
  let base := match cut ";" v with Some (b, _) => b | None => v end in
  let mediatype := trim (map_string lower base) in
  if String.eqb mediatype "" then ("", Some (ErrExternal "mime: no media type"))
  else (mediatype, None).

Definition is_ctl (a : ascii) : bool :=
  let n := nat_of_ascii a in ((n <? 32) || (n =? 127))%nat.

Fixpoint has_ctl (s : string) : bool :=
  match s with
  | EmptyString => false
  | String a s => is_ctl a || has_ctl s
  end.

(** [url.Parse] refuses control characters. *)
Definition Parse (s : string) : option error :=
  if has_ctl s then Some (ErrExternal "net/url: invalid control character in URL")
  else None.

Fixpoint squeeze (s : string) : string :=
  match s with
  | EmptyString => EmptyString
  | String a t =>
      match t with
      | String b _ =>
          if Ascii.eqb a "/" && Ascii.eqb b "/" then squeeze t
          else String a (squeeze t)
      | EmptyString => String a EmptyString
      end
  end.

(** [path.Join] on elements free of [.] and [..]. *)
Definition Join (elem : list string) : string :=
  squeeze (String.concat "/" (filter (fun e => negb (String.eqb e "")) elem)).

Definition URL_string (u : url_URL) : string :=
  Scheme u +:+ "://" +:+ Host u +:+ Path u.

(** [Location] values are taken as absolute URLs. *)
Definition ResolveReference (base ref : string) : string + error :=
  match Parse ref with
  | Some e => inr e
  | None => inl ref
  end.

(** No [Referer] from an https URL to an http one. *)
Definition refererForURL (last new : string) : string :=
  if String.prefix "https://" last && String.prefix "http://" new then ""
  else last.

Definition std : GoStd := {|
  url_Parse := Parse;
  mime_ParseMediaType := ParseMediaType;
  path_Join := Join;
  URL_String := URL_string;
  url_ResolveReference := ResolveReference;
  http_refererForURL := refererForURL;
  http_stripPassword := fun u => u
|}.

(** A registry that resolves every non-empty name to one image behind
    one transport. *)
Definition registry (img : v1_Image) (tr : RoundTripper) : Registry := {|
  Authenticator := unit;
  name_ParseReference := fun s =>
    if String.eqb s "" then inr (ErrExternal "could not parse reference")
    else inl (mkReference "https" "registry.test" s);
  DefaultKeychain_Resolve := fun _ => inl tt;
  transport_New := fun _ _ => inl tr;
  remote_Image := fun _ _ => inl img
|}.

(** An archive reader over a table of archives, one per digest. *)
Definition estargz (archives : Hash -> gmap string (list byte) + error) : Estargz := {|
  Reader := gmap string (list byte);
  SectionReader := list byte;
  estargz_Open := fun l => archives (Digest l);
  Reader_Lookup := fun r path =>
    match r !! path with Some _ => Some path | None => None end;
  Reader_OpenFile := fun r name =>
    match r !! name with
    | Some b => inl b
    | None => inr (ErrExternal "file not found")
    end;
  io_ReadAll := fun sr => (sr, None)
|}.

(** The value of a [Range] header of the form [bytes=<begin>-<end>]. *)
Definition parse_range (v : string) : option (Z * Z) :=
  rest ← strip_prefix "bytes=" v;
  '(b, e) ← cut "-" rest;
  b ← NilZero.uint_of_string b;
  e ← NilZero.uint_of_string e;
  Some (Z.of_uint b, Z.of_uint e).

(** The bytes [begin..end] of [content], [end] included. *)
Definition slice (content : list byte) (begin end_ : Z) : list byte :=
  firstn (Z.to_nat (end_ - begin + 1)) (skipn (Z.to_nat begin) content).

Definition octet_stream : gmap string (list string) :=
  {[ "Content-Type" := ["application/octet-stream"] ]}.

(** A blob server that honours single ranges: 206 with the requested
    window, cut at the end of the blob; 416 for a range it cannot read
    or satisfy; 200 with the whole blob when no range is asked for. *)
Definition range_server (content : list byte) : RoundTripper := fun req =>
  match ReqHeader req !! "Range" with
  | None => inl (mkResponse "200 OK" 200 octet_stream (mkBody content None))
  | Some _ =>
      match parse_range (Header_Get (ReqHeader req) "Range") with
      | Some (b, e) =>
          if (b <=? e) && (b <? len content) then
            inl (mkResponse "206 Partial Content" 206 octet_stream
                   (mkBody (slice content b (Z.min e (len content - 1))) None))
          else
            inl (mkResponse "416 Requested Range Not Satisfiable" 416 ∅
                   (mkBody [] None))
      | None =>
          inl (mkResponse "416 Requested Range Not Satisfiable" 416 ∅
                 (mkBody [] None))
      end
  end.

(** A server that answers every request with the same response. *)
Definition always (res : Response) : RoundTripper := fun _ => inl res.


End Sim.

(** ** Vocabulary of the specification *)

Import remote.

(** The request of a ranged read: a GET on [u] asking for the bytes
    [begin..end] in identity encoding. *)
Definition ranged_GET (u : string) (begin end_ : Z) : Request :=
  mkRequest "GET" u
    {[ "Range" := ["bytes=" +:+ fmt_d begin +:+ "-" +:+ fmt_d end_];
       "Accept-Encoding" := ["identity"] ]}
    false.

(** The probe of redirect resolution. *)
Definition probe_GET (u : string) : Request :=
  mkRequest "GET" u {[ "Range" := ["bytes=0-1"] ]} false.

(** The end bound of the window of [ReadAt], as Go computes
    [offset+int64(len(p))-1]. *)
Definition window_end (offset : Z) (p : list byte) : Z :=
  int64_sub (int64_add offset (len p)) 1.

(** The outcome of [fetch] on the response to its request. *)
Definition fetch_result {go : GoStd} (res : Response) : option Body * option error :=
  if StatusCode res =? StatusOK then (Some (ResBody res), None)
  else if StatusCode res =? StatusPartialContent then
    match mime_ParseMediaType (Header_Get (ResHeader res) "Content-Type") with
    | (mediaType, Some err) => (None, Some (ErrInvalidMediaType mediaType err))
    | (mediaType, None) =>
        if String.prefix "multipart/" mediaType then (None, Some ErrMultipart)
        else (Some (ResBody res), None)
    end
  else (None, Some (ErrUnexpectedStatus (Status res))).

(** The client goes on from this response to its [Location]. *)
Definition followed (res : Response) : bool :=
  shouldRedirect (StatusCode res)
  && negb (String.eqb (Header_Get (ResHeader res) "Location") "").

(** The world after one more request. *)
Definition after (w : World) (req : Request) : World :=
  mkWorld (sent w ++ [req]) (stdout w).


(** The no-op guard of [ReadAt]. *)
Definition noop (l : Layer) (p : list byte) (offset : Z) : Prop :=
  p = [] \/ size l < offset.

(** The canonical blob URL of a digest in the repository of [r]. *)
Definition canonical_URL {go : GoStd} (r : Remote) (d : Hash) : string :=
  URL_String
    (mkURL (Context_Scheme (ref r)) (Context_RegistryStr (ref r))
       (path_Join ["/v2/" +:+ Context_RepositoryStr (ref r) +:+ "/";
                   "blobs"; Hash_String d])).

(** Redirect resolution of a registry layer fails. *)
Definition resolution_fails {go : GoStd} (r : Remote) (layer : v1_Layer) : Prop :=
  forall w,
    (redirect (canonical_URL r (v1_Digest layer).1) (Remote_rt r)
       (30 * Second) w).1.2 <> None.



(** The payloads recorded for the layers, topmost layer first. *)
Definition payloads_top_down (layers : list Layer) (result : gmap Hash (list byte))
  : list string :=
  omap (fun l => string_of_list_byte <$> result !! Digest l) (rev layers).

(** The error a worker returns; it depends on its own layer only. *)
Definition worker_err {sgz : Estargz} (filePath : string) (l : Layer) : option error :=
  (main.worker filePath l l ∅).2.

(** A registry layer that [Layers] gets through: its size and digest
    are available and its blob URL resolves. *)
Definition resolves {go : GoStd} (r : Remote) (vl : v1_Layer) : Prop :=
  (v1_Size vl).2 = None /\ (v1_Digest vl).2 = None
  /\ forall w,
      (redirect (canonical_URL r (v1_Digest vl).1) (Remote_rt r)
         (30 * Second) w).1.2 = None.

(** The layer handle [l] is what [Layers] makes of the registry layer
    [vl]. *)
Definition resolved_from {go : GoStd} (r : Remote) (vl : v1_Layer) (l : Layer)
  : Prop :=
  v1_Size vl = (size l, None) /\ v1_Digest vl = (digest l, None)
  /\ blobURL l = canonical_URL r (digest l)
  /\ rt l = Remote_rt r
  /\ forall w,
      (redirect (blobURL l) (Remote_rt r) (30 * Second) w).1 = (url l, None).

(** The probe [Layers] sends for a registry layer. *)
Definition probe_of {go : GoStd} (r : Remote) (vl : v1_Layer) : Request :=
  probe_GET (canonical_URL r (v1_Digest vl).1).

(** The payload a worker stores for its layer, if any. *)
Definition worker_payload {sgz : Estargz} (filePath : string) (l : Layer)
  : option (list byte) :=
  (main.worker filePath l l ∅).1 !! Digest l.

(** The payload held by the topmost layer that contains the path. *)
Fixpoint topmost_payload {sgz : Estargz} (filePath : string) (layers : list Layer)
  : option (list byte) :=
  match layers with
  | [] => None
  | l :: layers =>
      match topmost_payload filePath layers with
      | Some v => Some v
      | None => worker_payload filePath l
      end
  end.


(** ** Fixtures *)
Module Fixture.

Import Sim.

Local Existing Instance Sim.std.

Definition hello : list byte := [x68; x65; x6c; x6c; x6f; x21]%byte.

Definition blob_url : string := "https://registry.test/v2/app/blobs/sha256:aa".

(** A layer of six bytes behind a range-aware server. *)
Definition L : Layer :=
  mkLayer (mkHash "sha256" "aa") blob_url blob_url 6 (range_server hello).

Definition zeros (n : nat) : list byte := repeat x00%byte n.

Definition ok_200 : Response :=
  mkResponse "200 OK" 200 ∅ (mkBody hello None).

Definition found_302 (location : list string) : Response :=
  mkResponse "302 Found" 302 {[ "Location" := location ]} (mkBody [] None).

Definition not_found_404 : Response :=
  mkResponse "404 Not Found" 404 ∅ (mkBody [] None).



Definition d0 : Hash := mkHash "sha256" "00".
Definition d1 : Hash := mkHash "sha256" "11".
Definition d2 : Hash := mkHash "sha256" "22".

Definition v1_layer (d : Hash) : v1_Layer := mkV1Layer (6, None) (d, None).

(** An image of three layers, bottom first. *)
Definition img : v1_Image := mkV1Image ([v1_layer d0; v1_layer d1; v1_layer d2], None).

(** A registry transport that serves every blob but the one of [d1]. *)
Definition tr_d1_missing : RoundTripper := fun req =>
  if String.eqb (URL req) "https://registry.test/v2/app/blobs/sha256:11"
  then inl not_found_404 else inl ok_200.

Definition old_payload : list byte := [x6f; x6c; x64]%byte.
Definition new_payload : list byte := [x6e; x65; x77]%byte.

(** [/etc/motd] is in the bottom and in the top layer. *)
Definition archives_02 (d : Hash) : gmap string (list byte) + error :=
  if decide (d = d0) then inl {[ "/etc/motd" := old_payload ]}
  else if decide (d = d2) then inl {[ "/etc/motd" := new_payload ]}
  else inl ∅.

(** As [archives_02], but the middle layer cannot be opened. *)
Definition archives_1_broken (d : Hash) : gmap string (list byte) + error :=
  if decide (d = d1) then inr (ErrExternal "estargz: invalid footer")
  else archives_02 d.

Definition layer_of (d : Hash) : Layer :=
  mkLayer d (canonical_URL (mkRemote (mkReference "https" "registry.test" "app")
                              (always ok_200) img) d)
    (canonical_URL (mkRemote (mkReference "https" "registry.test" "app")
                      (always ok_200) img) d)
    6 (always ok_200).

Definition reference : Reference := mkReference "https" "registry.test" "app".

Definition cdn_url : string := "https://cdn.test/blobs/aa".

(** A layer whose server answers every read with [res]. *)
Definition layer_with (res : Response) : Layer :=
  mkLayer d0 blob_url blob_url 6 (always res).

Definition remote_ok : Remote := mkRemote reference (always ok_200) img.
Definition remote_d1_missing : Remote := mkRemote reference tr_d1_missing img.

Definition motd_recorded : gmap Hash (list byte) :=
  {[ d0 := old_payload; d2 := new_payload ]}.

(** The image behind a registry that serves every blob directly, and
    behind one that has lost the blob of [d1]. *)
Definition registry_ok : Registry := registry img (always ok_200).
Definition registry_d1_missing : Registry := registry img tr_d1_missing.

Definition esgz_02 : Estargz := estargz archives_02.
Definition esgz_1_broken : Estargz := estargz archives_1_broken.

(** The layers of [img] as [Layers] resolves them, and the world after
    the three probes. *)
Definition layers_ok : list Layer := [layer_of d0; layer_of d1; layer_of d2].

Definition probed : World :=
  mkWorld [probe_GET (url (layer_of d0)); probe_GET (url (layer_of d1));
           probe_GET (url (layer_of d2))] [].

Definition args_motd : list string := ["ecrane"; "app"; "/etc/motd"].

(** A layer whose URL holds a line feed, which [url.Parse] refuses. *)
Definition layer_bad_url : Layer :=
  mkLayer d0 (String "010"%char "https://cdn.test/") blob_url 6
    (range_server hello).

(** A registry transport that sends every request for the blob on to
    [cdn_url], where the blob is served. *)
Definition tr_to_cdn : RoundTripper := fun req =>
  if String.eqb (URL req) cdn_url then inl ok_200
  else inl (found_302 [cdn_url]).

Definition layer_to_cdn : Layer :=
  mkLayer d0 blob_url blob_url 6 tr_to_cdn.

(** A layer whose declared size is negative. *)
Definition layer_negative_size : Layer :=
  mkLayer d0 blob_url blob_url (-10) (range_server hello).


End Fixture.

(** * Properties *)

(** ** Arithmetic and formatting *)


(** Wrapping the intermediate sum does not show in the end bound. *)
Lemma window_end_wrap offset p : window_end offset p = int64 (offset + len p - 1).
Proof.
  unfold window_end, int64_sub, int64_add, int64.
  f_equal.
  replace (((offset + len p + 2 ^ 63) mod 2 ^ 64 - 2 ^ 63 - 1 + 2 ^ 63))
    with ((offset + len p + 2 ^ 63) mod 2 ^ 64 - 1) by lia.
  rewrite Zminus_mod_idemp_l. f_equal. lia.
Qed.


Lemma int64_range z : - 2 ^ 63 <= int64 z < 2 ^ 63.
Proof.
  unfold int64. pose proof (Z.mod_pos_bound (z + 2 ^ 63) (2 ^ 64)). lia.
Qed.

Lemma int64_congruent z : (int64 z - z) mod 2 ^ 64 = 0.
Proof.
  unfold int64. rewrite (Z.mod_eq (z + 2 ^ 63)) by lia.
  replace (z + 2 ^ 63 - 2 ^ 64 * ((z + 2 ^ 63) / 2 ^ 64) - 2 ^ 63 - z)
    with ((- ((z + 2 ^ 63) / 2 ^ 64)) * 2 ^ 64) by lia.
  apply Z_mod_mult.
Qed.

Lemma len_nil_iff {A} (p : list A) : len p = 0 <-> p = [].
Proof.
  unfold len. destruct p; simpl; split; intros Hp; try done; lia.
Qed.

(** ** The guard of [ReadAt] *)

Section Reader.
Context {go : GoStd}.

Lemma guard_true_iff (l : Layer) (p : list byte) offset :
  (len p =? 0) || (offset >? size l) = true <-> noop l p offset.
Proof.
  unfold noop. rewrite orb_true_iff, Z.eqb_eq, len_nil_iff, Z.gtb_ltb, Z.ltb_lt.
  tauto.
Qed.

Lemma guard_false_iff (l : Layer) (p : list byte) offset :
  (len p =? 0) || (offset >? size l) = false <-> p <> [] /\ offset <= size l.
Proof.
  rewrite orb_false_iff, Z.eqb_neq, len_nil_iff, Z.gtb_ltb, Z.ltb_ge. tauto.
Qed.

(** Under the guard nothing is read and nothing is sent. *)
Lemma ReadAt_noop (l : Layer) p offset w :
  noop l p offset -> ReadAt l p offset w = ((0, None, p), w).
Proof.
  intros Hn. apply guard_true_iff in Hn. unfold ReadAt. by rewrite Hn.
Qed.

(** The request [fetch] builds is [ranged_GET]. *)
Lemma fetch_request (u : string) begin end_ :
  mkRequest "GET" u
    (Header_Add (Header_Add ∅ "Range"
                   ("bytes=" +:+ fmt_d begin +:+ "-" +:+ fmt_d end_))
       "Accept-Encoding" "identity") false
  = ranged_GET u begin end_.
Proof.
  unfold ranged_GET, Header_Add. f_equal.
Qed.

(** *** The loop of the client *)

Lemma Do_loop_step (tr : RoundTripper) (ireq : Request) n req w :
  Do_loop tr ireq n req w =
  match tr req with
  | inr err =>
      ((None, Some (ErrURL (Method ireq) (http_stripPassword (URL req)) err)),
       after w req)
  | inl resp =>
      if followed resp then
        match url_ResolveReference (URL req)
                (Header_Get (ResHeader resp) "Location") with
        | inr err =>
            ((None,
              Some (ErrURL (Method ireq) (http_stripPassword (URL req))
                      (ErrExternal "failed to parse Location header"))),
             after w req)
        | inl u =>
            match n with
            | O =>
                ((Some resp,
                  Some (ErrURL (Method ireq)
                          (Header_Get (ResHeader resp) "Location")
                          (ErrExternal "stopped after 10 redirects"))),
                 after w req)
            | S n =>
                Do_loop tr ireq n (hop_request ireq req (StatusCode resp) u)
                  (after w req)
            end
        end
      else ((Some resp, None), after w req)
  end.
Proof.
  destruct n; cbn [Do_loop]; unfold mbind, IO_bind, roundTrip, followed, after;
    (destruct (tr req) as [resp|e]; [|done]);
    (destruct (shouldRedirect (StatusCode resp)); [|done]);
    cbn [andb];
    (destruct (String.eqb (Header_Get (ResHeader resp) "Location") "");
     [done|]); cbn [negb];
    by destruct (url_ResolveReference _ _).
Qed.

(** The client returns a response whenever it returns no error. *)
Lemma Do_loop_some tr ireq n req w :
  (Do_loop tr ireq n req w).1.2 = None -> is_Some (Do_loop tr ireq n req w).1.1.
Proof.
  revert req w. induction n as [|n IH]; intros req w; rewrite Do_loop_step;
    (destruct (tr req) as [resp|e]; [|done]);
    (destruct (followed resp); [|by eauto]);
    (destruct (url_ResolveReference _ _); [|done]); [done | apply IH].
Qed.

(** A response the client does not follow ends the loop. *)
Lemma Do_loop_final tr ireq n req w res :
  tr req = inl res -> followed res = false ->
  Do_loop tr ireq n req w = ((Some res, None), after w req).
Proof. intros Hres Hf. by rewrite Do_loop_step, Hres, Hf. Qed.

Lemma hop_request_repeats (ireq req : Request) code u :
  Method req = "GET" ->
  Method (hop_request ireq req code u) = "GET"
  /\ ReqHeader (hop_request ireq req code u) !! "Range" = ReqHeader ireq !! "Range"
  /\ ReqHeader (hop_request ireq req code u) !! "Accept-Encoding"
     = ReqHeader ireq !! "Accept-Encoding".
Proof.
  intros Hm. unfold hop_request, redirectMethod. rewrite Hm.
  cbn [Method ReqHeader]. split.
  { by destruct ((code =? 301) || (code =? 302) || (code =? 303)). }
  destruct (String.eqb (http_refererForURL (URL req) u) ""); [done|].
  unfold Header_Set. by rewrite !lookup_insert_ne.
Qed.

(** The requests of the client: the one it is given, then hops that
    repeat the method and the headers of the first request. *)
Lemma Do_loop_sent tr ireq n req w :
  Method req = "GET" ->
  exists rest,
    (Do_loop tr ireq n req w).2 = mkWorld (sent w ++ req :: rest) (stdout w)
    /\ Forall (fun hop => Method hop = "GET"
                        /\ ReqHeader hop !! "Range" = ReqHeader ireq !! "Range"
                        /\ ReqHeader hop !! "Accept-Encoding"
                           = ReqHeader ireq !! "Accept-Encoding") rest.
Proof.
  revert req w. induction n as [|n IH]; intros req w Hm; rewrite Do_loop_step;
    (destruct (tr req) as [resp|e]; [|by exists []]);
    (destruct (followed resp); [|by exists []]);
    (destruct (url_ResolveReference _ _) as [u|e]; [|by exists []]);
    [by exists []|].
  pose proof (hop_request_repeats ireq req (StatusCode resp) u Hm) as Hhop.
  destruct (IH (hop_request ireq req (StatusCode resp) u) (after w req)
              (proj1 Hhop)) as (rest & -> & Hrest).
  exists (hop_request ireq req (StatusCode resp) u :: rest).
  split; [|by constructor].
  unfold after. cbn [sent stdout]. by rewrite <- app_assoc.
Qed.

(** *** [fetch] and [ReadAt] on the outcome of the client *)

Lemma fetch_unfold (l : Layer) begin end_ w :
  fetch l begin end_ w =
  match url_Parse (url l) with
  | Some err => ((None, Some err), w)
  | None =>
      match client_Do (rt l) (ranged_GET (url l) begin end_) w with
      | ((_, Some err), w') => ((None, Some err), w')
      | ((Some res, None), w') => (fetch_result res, w')
      | ((None, None), w') => ((None, None), w')
      end
  end.
Proof.
  unfold fetch, NewRequest. destruct (url_Parse (url l)) as [e|]; [done|].
  cbn [Method URL ReqHeader Close]. rewrite fetch_request.
  unfold mbind, IO_bind.
  destruct (client_Do _ _ w) as [[[res|] [e|]] w']; try done.
  unfold fetch_result.
  destruct (StatusCode res =? StatusOK); [done|].
  destruct (StatusCode res =? StatusPartialContent); [|done].
  destruct (mime_ParseMediaType _) as [mt [e|]]; [done|].
  by destruct (String.prefix _ _).
Qed.

(** [fetch] on a response that the client hands over as it is. *)
Lemma fetch_final (l : Layer) begin end_ w res :
  url_Parse (url l) = None ->
  rt l (ranged_GET (url l) begin end_) = inl res ->
  followed res = false ->
  fetch l begin end_ w
  = (fetch_result res, after w (ranged_GET (url l) begin end_)).
Proof.
  intros Hu Hres Hf. rewrite fetch_unfold, Hu. unfold client_Do.
  by rewrite (Do_loop_final _ _ _ _ _ res Hres Hf).
Qed.

Lemma not_followed (res : Response) :
  StatusCode res = 200 \/ StatusCode res = 206 -> followed res = false.
Proof. unfold followed, shouldRedirect. by intros [-> | ->]. Qed.

Lemma fetch_result_ok_body (res : Response) :
  (fetch_result res).2 = None -> is_Some (fetch_result res).1.
Proof.
  unfold fetch_result.
  destruct (StatusCode res =? StatusOK); [by eauto|].
  destruct (StatusCode res =? StatusPartialContent); [|done].
  destruct (mime_ParseMediaType _) as [mt [e|]]; [done|].
  destruct (String.prefix _ _); [done|by eauto].
Qed.

(** [fetch] hands over a body exactly when it reports no error. *)
Lemma fetch_ok_body (l : Layer) begin end_ w :
  (fetch l begin end_ w).1.2 = None -> is_Some (fetch l begin end_ w).1.1.
Proof.
  rewrite fetch_unfold. destruct (url_Parse (url l)); [done|].
  pose proof (Do_loop_some (rt l) (ranged_GET (url l) begin end_) 9
                (ranged_GET (url l) begin end_) w) as Hsome.
  unfold client_Do.
  destruct (Do_loop _ _ _ _ w) as [[[res|] [e|]] w']; cbn [fst snd] in *;
    try done.
  - apply fetch_result_ok_body.
  - intros _. by destruct (Hsome eq_refl) as [? [=]].
Qed.

Lemma ReadAt_unfold (l : Layer) p offset w :
  p <> [] -> offset <= size l ->
  ReadAt l p offset w =
  match fetch l offset (window_end offset p) w with
  | ((_, Some err), w') => ((0, Some err, p), w')
  | ((Some rc, None), w') => (io_ReadFull rc p, w')
  | ((None, None), w') => ((0, None, p), w')
  end.
Proof.
  intros Hp Ho. unfold ReadAt.
  replace ((len p =? 0) || (offset >? size l)) with false
    by (symmetry; by apply guard_false_iff).
  unfold mbind, IO_bind, window_end.
  by destruct (fetch l offset _ w) as [[[rc|] [e|]] w'].
Qed.

(** *** The requests on the wire *)

Lemma fetch_sent (l : Layer) begin end_ w :
  url_Parse (url l) = None ->
  exists rest,
    (fetch l begin end_ w).2
    = mkWorld (sent w ++ ranged_GET (url l) begin end_ :: rest) (stdout w)
    /\ Forall (fun hop =>
                 Method hop = "GET"
                 /\ ReqHeader hop !! "Range"
                    = ReqHeader (ranged_GET (url l) begin end_) !! "Range"
                 /\ ReqHeader hop !! "Accept-Encoding"
                    = ReqHeader (ranged_GET (url l) begin end_)
                        !! "Accept-Encoding") rest.
Proof.
  intros Hu. rewrite fetch_unfold, Hu. unfold client_Do.
  destruct (Do_loop_sent (rt l) (ranged_GET (url l) begin end_) 9
              (ranged_GET (url l) begin end_) w eq_refl) as (rest & Hw & Hrest).
  exists rest. split; [|done].
  destruct (Do_loop _ _ _ _ w) as [[[res|] [e|]] w']; cbn [snd] in *; done.
Qed.

Lemma ReadAt_sent (l : Layer) p offset w :
  p <> [] -> offset <= size l -> url_Parse (url l) = None ->
  exists rest,
    (ReadAt l p offset w).2
    = mkWorld (sent w ++ ranged_GET (url l) offset (window_end offset p) :: rest)
        (stdout w)
    /\ Forall (fun hop =>
                 Method hop = "GET"
                 /\ ReqHeader hop !! "Range"
                    = ReqHeader (ranged_GET (url l) offset (window_end offset p))
                        !! "Range"
                 /\ ReqHeader hop !! "Accept-Encoding"
                    = ReqHeader (ranged_GET (url l) offset (window_end offset p))
                        !! "Accept-Encoding") rest.
Proof.
  intros Hp Ho Hu. rewrite ReadAt_unfold by done.
  destruct (fetch_sent l offset (window_end offset p) w Hu) as (rest & Hw & Hrest).
  exists rest. split; [|done].
  by destruct (fetch l offset _ w) as [[[rc|] [e|]] w'].
Qed.

(** A read whose response the client hands over as it is. *)
Lemma ReadAt_final (l : Layer) p offset w res :
  p <> [] -> offset <= size l -> url_Parse (url l) = None ->
  rt l (ranged_GET (url l) offset (window_end offset p)) = inl res ->
  followed res = false ->
  ReadAt l p offset w =
  (match fetch_result res with
   | (_, Some err) => (0, Some err, p)
   | (Some rc, None) => io_ReadFull rc p
   | (None, None) => (0, None, p)
   end, after w (ranged_GET (url l) offset (window_end offset p))).
Proof.
  intros Hp Ho Hu Hres Hf.
  rewrite ReadAt_unfold, (fetch_final _ _ _ _ res) by done.
  by destruct (fetch_result res) as [[rc|] [e|]].
Qed.

Lemma redirect_unfold blobURL tr timeout w :
  redirect blobURL tr timeout w =
  match url_Parse blobURL with
  | Some err => (("", Some (ErrMakeRequest err)), w)
  | None =>
      (match tr (probe_GET blobURL) with
       | inr err => ("", Some (ErrRequest err))
       | inl res =>
           if Z.quot (StatusCode res) 100 =? 2 then (blobURL, None)
           else if negb (String.eqb (Header_Get (ResHeader res) "Location") "")
                   && (Z.quot (StatusCode res) 100 =? 3)
           then (Header_Get (ResHeader res) "Location", None)
           else ("", Some (ErrRegistryCode (StatusCode res)))
       end, mkWorld (sent w ++ [probe_GET blobURL]) (stdout w))
  end.
Proof.
  unfold redirect, NewRequest. destruct (url_Parse blobURL) as [e|]; [done|].
  cbn [Method URL ReqHeader Close].
  change (mkRequest "GET" blobURL (Header_Set ∅ "Range" "bytes=0-1") false)
    with (probe_GET blobURL).
  unfold mbind, IO_bind, roundTrip.
  destruct (tr _) as [res|e]; [|done].
  destruct (_ =? 2); [done|]. by destruct (_ && _).
Qed.

(** C8, as amended.  A [ReadAt] that is not a no-op and whose URL the
    request constructor accepts sends a GET on that URL first, with
    [Range: bytes=offset-end] in decimal, [end] being [offset+len(p)-1]
    as an int64 (the number itself whenever it fits), and with
    [Accept-Encoding: identity]; any further request of the call is a
    hop of the HTTP client to a [Location], a GET that repeats these
    two headers.  The redirect probe on an accepted blob URL is one GET
    with [Range: bytes=0-1]. *)
Theorem requests_on_the_wire (l : Layer) (p : list byte) (offset : Z) (w : World)
    (blobURL : string) (tr : RoundTripper) (timeout : Z) (w' : World) :
  ~ noop l p offset ->
  url_Parse (url l) = None ->
  url_Parse blobURL = None ->
  (exists req rest end_,
      sent (ReadAt l p offset w).2 = sent w ++ req :: rest
      /\ Method req = "GET" /\ URL req = url l
      /\ ReqHeader req !! "Range"
         = Some ["bytes=" +:+ NilZero.string_of_int (Z.to_int offset)
                 +:+ "-" +:+ NilZero.string_of_int (Z.to_int end_)]
      /\ - 2 ^ 63 <= end_ < 2 ^ 63
      /\ (end_ - (offset + Z.of_nat (length p) - 1)) mod 2 ^ 64 = 0
      /\ ReqHeader req !! "Accept-Encoding" = Some ["identity"]
      /\ Forall (fun hop => Method hop = "GET"
                          /\ ReqHeader hop !! "Range" = ReqHeader req !! "Range"
                          /\ ReqHeader hop !! "Accept-Encoding"
                             = Some ["identity"]) rest)
  /\ (exists req,
      sent (redirect blobURL tr timeout w').2 = sent w' ++ [req]
      /\ Method req = "GET" /\ URL req = blobURL
      /\ ReqHeader req !! "Range" = Some ["bytes=0-1"]).
Proof.
  intros Hn Hu Hb. split.
  - assert (p <> [] /\ offset <= size l) as [Hp Ho].
    { unfold noop in Hn. split; [tauto | lia]. }
    destruct (ReadAt_sent l p offset w Hp Ho Hu) as (rest & Hw & Hrest).
    exists (ranged_GET (url l) offset (window_end offset p)), rest,
      (window_end offset p).
    rewrite Hw. cbn [sent]. split; [done|]. split; [done|]. split; [done|].
    split; [done|].
    split; [rewrite window_end_wrap; apply int64_range|].
    split; [rewrite window_end_wrap; apply int64_congruent|].
    split; [done|]. eapply Forall_impl; [exact Hrest|].
    intros hop (Hm & Hr & Ha). by rewrite Ha.
  - exists (probe_GET blobURL).
    rewrite redirect_unfold, Hb. done.
Qed.

(** A negative offset is printed with its sign. *)
Lemma fmt_d_negative z : z < 0 -> exists s, fmt_d z = String "-" s.
Proof.
  destruct z as [|q|q]; try lia. intros _. unfold fmt_d. simpl. eauto.
Qed.

(** C9, as amended.  A read into a non-empty buffer at a negative
    offset that is not above the declared size (no negative offset is,
    when the size is not negative) passes the guard, which looks only
    for an empty buffer or an offset above the size.  With a URL that
    the request constructor accepts, the call sends a GET first whose
    range begins at the negative offset, printed with its minus sign,
    and its outcome is that of the exchange (for a 200 answer: the body
    read into the buffer), not a zero read or a rejected offset. *)
Theorem ReadAt_negative_offset (l : Layer) (p : list byte) (offset : Z) (w : World) :
  p <> [] -> offset < 0 -> offset <= size l -> url_Parse (url l) = None ->
  ~ noop l p offset
  /\ exists req rest digits end_,
      sent (ReadAt l p offset w).2 = sent w ++ req :: rest
      /\ Method req = "GET" /\ URL req = url l
      /\ ReqHeader req !! "Range"
         = Some ["bytes=" +:+ NilZero.string_of_int (Z.to_int offset)
                 +:+ "-" +:+ NilZero.string_of_int (Z.to_int end_)]
      /\ NilZero.string_of_int (Z.to_int offset) = String "-" digits
      /\ (forall res,
            rt l req = inl res -> StatusCode res = 200 ->
            (ReadAt l p offset w).1 = io_ReadFull (ResBody res) p).
Proof.
  intros Hp Hneg Ho Hu. split.
  { unfold noop. intros [?|?]; [done | lia]. }
  destruct (ReadAt_sent l p offset w Hp Ho Hu) as (rest & Hw & _).
  destruct (fmt_d_negative offset Hneg) as [digits Hd].
  exists (ranged_GET (url l) offset (window_end offset p)), rest, digits,
    (window_end offset p).
  rewrite Hw. cbn [sent]. repeat (split; [done|]).
  intros res Hres Hst.
  rewrite (ReadAt_final l p offset w res Hp Ho Hu Hres)
    by (apply not_followed; by left).
  unfold fetch_result, StatusOK. by rewrite Hst.
Qed.

End Reader.

(** ** Reading from a range-aware server *)








Section RangeReads.
Context {go : GoStd}.

Lemma fetch_result_octet_stream (rc : Body) :
  mime_ParseMediaType "application/octet-stream"
    = ("application/octet-stream", None) ->
  fetch_result (mkResponse "206 Partial Content" 206 Sim.octet_stream rc)
  = (Some rc, None).
Proof.
  intros Hm. unfold fetch_result. cbn [StatusCode ResHeader ResBody].
  change (Header_Get Sim.octet_stream "Content-Type")
    with "application/octet-stream".
  by rewrite Hm.
Qed.




End RangeReads.

(** ** The reader on a blob of six bytes *)

Section OnFixture.
Import Fixture.
Local Existing Instance Sim.std.

Lemma L_well_formed :
  rt L = Sim.range_server hello /\ size L = len hello /\ url_Parse (url L) = None.
Proof. by vm_compute. Qed.




(** C2, at the input where the code departs from it.  For an offset
    equal to the declared size the guard [offset > l.size] does not
    hold: the one-byte read at offset 6 of the six-byte layer sends
    [bytes=6-6] to the server and returns its 416 as an error, where
    the claim has a read of zero bytes, no error and no request. *)
Theorem ReadAt_at_size_fetches :
  ReadAt L (zeros 1) (size L) w0
  = ((0, Some (ErrUnexpectedStatus "416 Requested Range Not Satisfiable"),
      zeros 1),
     mkWorld [ranged_GET (url L) 6 6] []).
Proof. by vm_compute. Qed.

Lemma requests_on_the_wire_witness :
  ((exists req rest end_,
      sent (ReadAt L (zeros 3) 2 w0).2 = sent w0 ++ req :: rest
      /\ Method req = "GET" /\ URL req = url L
      /\ ReqHeader req !! "Range"
         = Some ["bytes=" +:+ NilZero.string_of_int (Z.to_int 2)
                 +:+ "-" +:+ NilZero.string_of_int (Z.to_int end_)]
      /\ - 2 ^ 63 <= end_ < 2 ^ 63
      /\ (end_ - (2 + Z.of_nat (length (zeros 3)) - 1)) mod 2 ^ 64 = 0
      /\ ReqHeader req !! "Accept-Encoding" = Some ["identity"]
      /\ Forall (fun hop => Method hop = "GET"
                          /\ ReqHeader hop !! "Range" = ReqHeader req !! "Range"
                          /\ ReqHeader hop !! "Accept-Encoding"
                             = Some ["identity"]) rest)
   /\ (exists req,
      sent (redirect blob_url (Sim.always ok_200) (30 * Second) w0).2
      = sent w0 ++ [req]
      /\ Method req = "GET" /\ URL req = blob_url
      /\ ReqHeader req !! "Range" = Some ["bytes=0-1"]))
  /\ sent (ReadAt L (zeros 3) 2 w0).2
     = [mkRequest "GET" blob_url
          {[ "Range" := ["bytes=2-4"]; "Accept-Encoding" := ["identity"] ]}
          false].
Proof.
  split.
  - apply (requests_on_the_wire L (zeros 3) 2 w0 blob_url (Sim.always ok_200)
             (30 * Second) w0).
    + intros [Hp|Hs]; [discriminate Hp | vm_compute in Hs; discriminate Hs].
    + reflexivity.
    + reflexivity.
  - vm_compute. reflexivity.
Defined.

(** C8 fails for a URL that the request constructor refuses (the URL
    of a layer may be the [Location] a registry sent): the read passes
    the guard and sends nothing; nor does a probe on such a URL. *)
Lemma refused_url_sends_nothing :
  ~ noop layer_bad_url (zeros 3) 0
  /\ ReadAt layer_bad_url (zeros 3) 0 w0
     = ((0, Some (ErrExternal "net/url: invalid control character in URL"),
         zeros 3), w0)
  /\ sent (redirect (url layer_bad_url) (Sim.always ok_200) (30 * Second) w0).2
     = [].
Proof.
  split.
  - intros [Hp|Hs]; [discriminate Hp | vm_compute in Hs; discriminate Hs].
  - by vm_compute.
Qed.

Lemma ReadAt_negative_offset_witness :
  ~ noop (layer_with ok_200) (zeros 3) (-1)
  /\ exists req rest digits end_,
      sent (ReadAt (layer_with ok_200) (zeros 3) (-1) w0).2
      = sent w0 ++ req :: rest
      /\ Method req = "GET" /\ URL req = url (layer_with ok_200)
      /\ ReqHeader req !! "Range"
         = Some ["bytes=" +:+ NilZero.string_of_int (Z.to_int (-1))
                 +:+ "-" +:+ NilZero.string_of_int (Z.to_int end_)]
      /\ NilZero.string_of_int (Z.to_int (-1)) = String "-" digits
      /\ (forall res,
            rt (layer_with ok_200) req = inl res -> StatusCode res = 200 ->
            (ReadAt (layer_with ok_200) (zeros 3) (-1) w0).1
            = io_ReadFull (ResBody res) (zeros 3)).
Proof.
  apply (ReadAt_negative_offset (layer_with ok_200) (zeros 3) (-1) w0).
  - discriminate.
  - reflexivity.
  - vm_compute. discriminate.
  - reflexivity.
Defined.

(** Against a server that answers 200 with the whole blob, the read at
    offset -1 asks for [bytes=-1-1] and returns the first three bytes
    of the blob without an error. *)
Lemma ReadAt_negative_offset_reads :
  ReadAt (layer_with ok_200) (zeros 3) (-1) w0
  = ((3, None, [x68; x65; x6c]%byte),
     mkWorld [mkRequest "GET" blob_url
                {[ "Range" := ["bytes=-1-1"];
                   "Accept-Encoding" := ["identity"] ]} false] []).
Proof. by vm_compute. Qed.

(** C9 fails where the declared size is below the negative offset: the
    guard [offset > l.size] holds and the call is a no-op.  It fails
    too where the URL of the layer is refused: no GET is sent. *)
Lemma negative_offset_without_request :
  zeros 3 <> [] /\ -1 < 0
  /\ ReadAt layer_negative_size (zeros 3) (-1) w0 = ((0, None, zeros 3), w0)
  /\ ReadAt layer_bad_url (zeros 3) (-1) w0
     = ((0, Some (ErrExternal "net/url: invalid control character in URL"),
         zeros 3), w0).
Proof.
  split; [discriminate|]. split; [reflexivity|]. by vm_compute.
Qed.

End OnFixture.

(** ** Partial content *)

Section PartialContent.
Context {go : GoStd}.

Lemma fetch_on_response (l : Layer) begin end_ w res :
  url_Parse (url l) = None ->
  rt l (ranged_GET (url l) begin end_) = inl res ->
  followed res = false ->
  (fetch l begin end_ w).1 = fetch_result res.
Proof. intros Hu Hres Hf. by rewrite (fetch_final l begin end_ w res). Qed.




End PartialContent.

(** ** Redirect resolution and enumeration *)

Lemma quot_100_hundreds (code k : Z) :
  0 < k -> (Z.quot code 100 =? k) = true <-> 100 * k <= code < 100 * k + 100.
Proof.
  intros Hk. rewrite Z.eqb_eq.
  pose proof (Z.quot_rem' code 100) as Hqr.
  destruct (Z.le_gt_cases 0 code) as [Hpos|Hneg].
  - pose proof (Z.rem_bound_pos code 100 Hpos ltac:(lia)). lia.
  - pose proof (Z.rem_nonpos code 100 ltac:(lia) ltac:(lia)).
    pose proof (Z.quot_le_upper_bound code 100 0 ltac:(lia) ltac:(lia)). lia.
Qed.

Section Enumerator.
Context {go : GoStd}.

(** C4, as amended.  The three cases of redirect resolution, on the
    response [res] to the probe: a 2xx status resolves to the canonical
    URL itself; a 3xx status with a [Location] header whose first value
    is not empty resolves to that value; every other response, a 3xx
    without [Location] or with an empty one among them, fails with the
    error that carries the observed status code. *)
Theorem redirect_resolution (blobURL : string) (tr : RoundTripper) (timeout : Z)
    (w : World) (res : Response) :
  url_Parse blobURL = None ->
  tr (probe_GET blobURL) = inl res ->
  (200 <= StatusCode res < 300 ->
     (redirect blobURL tr timeout w).1 = (blobURL, None))
  /\ (forall target more,
        300 <= StatusCode res < 400 ->
        ResHeader res !! "Location" = Some (target :: more) -> target <> "" ->
        (redirect blobURL tr timeout w).1 = (target, None))
  /\ (~ 200 <= StatusCode res < 300 ->
     ~ 300 <= StatusCode res < 400
     \/ ResHeader res !! "Location" = None
     \/ ResHeader res !! "Location" = Some []
     \/ (exists more, ResHeader res !! "Location" = Some ("" :: more)) ->
     (redirect blobURL tr timeout w).1
     = ("", Some (ErrRegistryCode (StatusCode res)))).
Proof.
  intros Hu Hres.
  rewrite redirect_unfold, Hu, Hres. cbn [fst].
  pose proof (quot_100_hundreds (StatusCode res) 2 ltac:(lia)) as H2.
  pose proof (quot_100_hundreds (StatusCode res) 3 ltac:(lia)) as H3.
  split; [|split].
  - intros Hc. apply H2 in Hc. by rewrite Hc.
  - intros target more Hc Hloc Hne.
    assert ((Z.quot (StatusCode res) 100 =? 2) = false) as ->.
    { apply not_true_is_false. intros Hq. apply H2 in Hq. lia. }
    apply H3 in Hc. rewrite Hc. unfold Header_Get. rewrite Hloc.
    by destruct (String.eqb_spec target "").
  - intros Hn2 Hother.
    assert ((Z.quot (StatusCode res) 100 =? 2) = false) as ->.
    { apply not_true_is_false. intros Hq. by apply H2 in Hq. }
    unfold Header_Get.
    destruct Hother as [Hn3|[Hloc|[Hloc|[more Hloc]]]]; try (by rewrite Hloc).
    assert ((Z.quot (StatusCode res) 100 =? 3) = false) as ->.
    { apply not_true_is_false. intros Hq. by apply H3 in Hq. }
    by rewrite andb_false_r.
Qed.

Lemma redirect_stdout blobURL tr timeout w :
  stdout (redirect blobURL tr timeout w).2 = stdout w.
Proof.
  rewrite redirect_unfold. by destruct (url_Parse blobURL).
Qed.

(** The loop of [Layers] gives up at the first layer it cannot resolve,
    whatever it has collected. *)
Lemma Layers_loop_fail_fast (r : Remote) (layers : list v1_Layer)
    (eLayers : list Layer) (w : World) :
  (exists layer, layer ∈ layers /\ resolution_fails r layer) ->
  exists err,
    (Layers_loop r
       (mkURL (Context_Scheme (ref r)) (Context_RegistryStr (ref r))
          ("/v2/" +:+ Context_RepositoryStr (ref r) +:+ "/"))
       layers eLayers w).1 = ([], Some err).
Proof.
  revert eLayers w.
  induction layers as [|layer layers IH]; intros eLayers w (bad & Hin & Hbad).
  { by apply elem_of_nil in Hin. }
  cbn [Layers_loop].
  destruct (v1_Size layer) as [sz [e|]] eqn:Hsz; [by exists e|].
  destruct (v1_Digest layer) as [d [e|]] eqn:Hd; [by exists e|].
  cbn [Scheme Host Path]. unfold mbind, IO_bind.
  fold (canonical_URL r d).
  destruct (redirect (canonical_URL r d) (Remote_rt r) (30 * Second) w)
    as [[u [e|]] w1] eqn:Hred; [by exists e|].
  apply elem_of_cons in Hin as [->|Hin].
  - specialize (Hbad w). rewrite Hd in Hbad. cbn [fst] in Hbad.
    by rewrite Hred in Hbad.
  - apply IH. by exists bad.
Qed.

(** C5.  If redirect resolution fails for at least one layer of the
    image, [Layers] returns an error and the nil slice: the layers
    resolved before the failing one are not returned. *)
Theorem Layers_fail_fast (r : Remote) (w : World) :
  (exists layer, layer ∈ (v1_Layers (image r)).1 /\ resolution_fails r layer) ->
  exists err, (Layers r w).1 = ([], Some err).
Proof.
  intros Hbad. unfold Layers.
  destruct (v1_Layers (image r)) as [layers [e|]]; [by exists e|].
  by apply Layers_loop_fail_fast.
Qed.

End Enumerator.

(** ** The lookup over all layers *)

Section Lookup.
Context {go : GoStd} {ggcr : Registry} {sgz : Estargz}.

Import main.

Lemma worker_error_own (filePath : string) (l layer : Layer)
    (result : gmap Hash (list byte)) :
  (worker filePath l layer result).2 = worker_err filePath l.
Proof.
  unfold worker_err, worker.
  destruct (estargz_Open l) as [esgz|e]; [|done].
  destruct (Reader_Lookup esgz filePath) as [name|]; [|done].
  destruct (Reader_OpenFile esgz name) as [sr|e]; [|done].
  by destruct (io_ReadAll sr) as [b [e|]].
Qed.

(** Once the group holds an error it keeps it. *)
Lemma Go_all_error_kept filePath layers sched result e :
  (Go_all filePath layers sched result (Some e)).2 = Some e.
Proof.
  revert result. induction sched as [|[i j] sched IH]; intros result; [done|].
  cbn [Go_all].
  destruct (layers !! i) as [l|]; [|apply IH].
  destruct (layers !! j) as [layer|]; [|apply IH].
  destruct (worker filePath l layer result) as [result' err]. apply IH.
Qed.

(** The error of the group is the error of the first worker that fails. *)
Lemma Go_all_first_error filePath layers pre i j post result l layer e :
  Forall (fun ij => forall l', layers !! ij.1 = Some l' ->
                    worker_err filePath l' = None) pre ->
  layers !! i = Some l -> layers !! j = Some layer ->
  worker_err filePath l = Some e ->
  (Go_all filePath layers (pre ++ (i, j) :: post) result None).2 = Some e.
Proof.
  intros Hpre Hi Hj He. revert result.
  induction Hpre as [|[i' j'] pre Hok _ IH]; intros result.
  - cbn [app Go_all]. rewrite Hi, Hj.
    pose proof (worker_error_own filePath l layer result) as Hw.
    destruct (worker filePath l layer result) as [result' err].
    cbn [snd] in Hw. rewrite Hw, He. apply Go_all_error_kept.
  - cbn [app Go_all].
    destruct (layers !! i') as [l'|] eqn:Hi'; [|apply IH].
    destruct (layers !! j') as [layer'|]; [|apply IH].
    pose proof (worker_error_own filePath l' layer' result) as Hw.
    destruct (worker filePath l' layer' result) as [result' err].
    cbn [snd fst] in *. rewrite Hw, (Hok l' Hi'). apply IH.
Qed.

Lemma Layers_loop_stdout r repoURL layers eLayers w :
  stdout (Layers_loop r repoURL layers eLayers w).2 = stdout w.
Proof.
  revert eLayers w. induction layers as [|layer layers IH]; intros eLayers w.
  { done. }
  cbn [Layers_loop].
  destruct (v1_Size layer) as [sz [e|]]; [done|].
  destruct (v1_Digest layer) as [d [e|]]; [done|].
  unfold mbind, IO_bind.
  pose proof (redirect_stdout
    (URL_String (mkURL (Scheme repoURL) (Host repoURL)
                   (path_Join [Path repoURL; "blobs"; Hash_String d])))
    (Remote_rt r) (30 * Second) w) as Hout.
  destruct (redirect _ _ _ w) as [[u [e|]] w1]; [done|].
  rewrite IH. done.
Qed.

(** Enumerating the layers prints nothing. *)
Lemma Layers_stdout r w : stdout (Layers r w).2 = stdout w.
Proof.
  unfold Layers. destruct (v1_Layers (image r)) as [layers [e|]]; [done|].
  apply Layers_loop_stdout.
Qed.

(** The final loop prints the recorded payloads from the top layer
    down, and nothing else. *)
Lemma scan_prints layers result n w :
  (n <= length layers)%nat ->
  scan layers result n w
  = (tt, mkWorld (sent w)
           (stdout w ++ payloads_top_down (take n layers) result)).
Proof.
  revert w. induction n as [|i IH]; intros w Hn.
  { unfold payloads_top_down. cbn. rewrite app_nil_r. by destruct w. }
  cbn [scan].
  destruct (lookup_lt_is_Some_2 layers i ltac:(lia)) as [layer Hl].
  rewrite Hl. unfold payloads_top_down.
  rewrite (take_S_r _ _ _ Hl), rev_unit. cbn [omap list_omap].
  fold (payloads_top_down (take i layers) result).
  destruct (result !! Digest layer) as [v|]; cbn [fmap option_fmap option_map].
  - unfold mbind, IO_bind, Println. rewrite IH by lia. cbn [sent stdout].
    by rewrite <- app_assoc.
  - rewrite IH by lia. done.
Qed.




Lemma run_unfold (prog imageName filePath : string) sched w r :
  New imageName = inl r ->
  run [prog; imageName; filePath] sched w =
  match Layers r w with
  | ((_, Some err), w1) => (Some err, w1)
  | ((layers, None), w1) =>
      match Go_all filePath layers sched ∅ None with
      | (_, Some err) => (Some err, w1)
      | (result, None) => (None, (scan layers result (length layers) w1).2)
      end
  end.
Proof.
  intros Hnew. unfold run.
  change (len [prog; imageName; filePath] =? 3) with true. cbn [negb nth].
  rewrite Hnew. unfold mbind, IO_bind.
  destruct (Layers r w) as [[layers [e|]] w1]; [done|].
  destruct (Go_all _ _ _ _ _) as [result [e|]]; [done|].
  by destruct (scan _ _ _ w1).
Qed.

(** C7.  Let the workers finish in the order [sched], and let the
    worker of layer [i] be the first of them to return an error, [e].
    Then [run] returns [e] and prints nothing, whatever the workers
    that finished before it have stored. *)
Theorem run_reports_first_worker_error (prog imageName filePath : string)
    (sched : list (nat * nat)) (w : World) (r : Remote) (layers : list Layer)
    (w1 : World) (pre post : list (nat * nat)) (i j : nat) (l : Layer)
    (e : error) :
  New imageName = inl r ->
  Layers r w = ((layers, None), w1) ->
  schedule (length layers) sched ->
  sched = pre ++ (i, j) :: post ->
  Forall (fun ij => forall l', layers !! ij.1 = Some l' ->
                    worker_err filePath l' = None) pre ->
  layers !! i = Some l ->
  worker_err filePath l = Some e ->
  (run [prog; imageName; filePath] sched w).1 = Some e
  /\ stdout (run [prog; imageName; filePath] sched w).2 = stdout w.
Proof.
  intros Hnew Hlayers [_ Hrange] -> Hpre Hi He.
  assert (exists layer, layers !! j = Some layer) as [layer Hj].
  { apply Forall_app in Hrange as [_ Hrange].
    apply Forall_cons in Hrange as [Hij _]. cbn [fst snd] in Hij.
    apply lookup_lt_is_Some_2. lia. }
  pose proof (Go_all_first_error filePath layers pre i j post ∅ l layer e
                Hpre Hi Hj He) as Hgo.
  pose proof (Layers_stdout r w) as Hout. rewrite Hlayers in Hout.
  rewrite (run_unfold prog imageName filePath _ w r Hnew), Hlayers.
  destruct (Go_all _ _ _ _ _) as [result err]. cbn [snd] in Hgo. subst err.
  done.
Qed.

End Lookup.

(** ** The packages on a registry of three layers *)

Section OnRegistry.
Import Fixture.
Local Existing Instance Sim.std.

Lemma redirect_resolution_witness :
  (200 <= StatusCode (found_302 [cdn_url]) < 300 ->
     (redirect blob_url (Sim.always (found_302 [cdn_url])) (30 * Second) w0).1
     = (blob_url, None))
  /\ (forall target more,
        300 <= StatusCode (found_302 [cdn_url]) < 400 ->
        ResHeader (found_302 [cdn_url]) !! "Location" = Some (target :: more) ->
        target <> "" ->
        (redirect blob_url (Sim.always (found_302 [cdn_url])) (30 * Second) w0).1
        = (target, None))
  /\ (~ 200 <= StatusCode (found_302 [cdn_url]) < 300 ->
     ~ 300 <= StatusCode (found_302 [cdn_url]) < 400
     \/ ResHeader (found_302 [cdn_url]) !! "Location" = None
     \/ ResHeader (found_302 [cdn_url]) !! "Location" = Some []
     \/ (exists more,
           ResHeader (found_302 [cdn_url]) !! "Location" = Some ("" :: more)) ->
     (redirect blob_url (Sim.always (found_302 [cdn_url])) (30 * Second) w0).1
     = ("", Some (ErrRegistryCode (StatusCode (found_302 [cdn_url]))))).
Proof.
  apply (redirect_resolution blob_url (Sim.always (found_302 [cdn_url]))
           (30 * Second) w0 (found_302 [cdn_url])).
  - reflexivity.
  - reflexivity.
Defined.

(** C4 fails on a 302 whose [Location] header is present and empty:
    the probe does not resolve to that target, it fails. *)
Lemma redirect_empty_location :
  ResHeader (found_302 [""]) !! "Location" = Some [""]
  /\ (redirect blob_url (Sim.always (found_302 [""])) (30 * Second) w0).1
     = ("", Some (ErrRegistryCode 302))
  /\ (redirect blob_url (Sim.always (found_302 [""])) (30 * Second) w0).1
     <> ("", None).
Proof.
  split; [reflexivity|]. split; [by vm_compute|]. vm_compute. discriminate.
Qed.

(** The three cases on three servers: 200, 302 with a target, 404. *)
Lemma redirect_three_servers :
  (redirect blob_url (Sim.always ok_200) (30 * Second) w0).1 = (blob_url, None)
  /\ (redirect blob_url (Sim.always (found_302 [cdn_url])) (30 * Second) w0).1
     = (cdn_url, None)
  /\ (redirect blob_url (Sim.always not_found_404) (30 * Second) w0).1
     = ("", Some (ErrRegistryCode 404)).
Proof. by vm_compute. Qed.

Lemma Layers_fail_fast_witness :
  exists err, (Layers remote_d1_missing w0).1 = ([], Some err).
Proof.
  apply (Layers_fail_fast remote_d1_missing w0).
  exists (v1_layer d1). split.
  - cbn. apply list_elem_of_In. right. left. reflexivity.
  - intros w. vm_compute. discriminate.
Defined.

(** The probe of the first layer succeeded before the one of the second
    failed; the first layer is not returned. *)
Lemma Layers_drops_resolved_layers :
  Layers remote_d1_missing w0
  = (([], Some (ErrRegistryCode 404)),
     mkWorld [probe_GET (url (layer_of d0)); probe_GET (url (layer_of d1))] []).
Proof. by vm_compute. Qed.




Lemma Layers_ok : Layers remote_ok w0 = ((layers_ok, None), probed).
Proof. by vm_compute. Qed.


Lemma run_reports_first_worker_error_witness :
  (main.run (ggcr := registry_ok) (sgz := esgz_1_broken)
     ["ecrane"; "app"; "/etc/motd"] [(0, 0); (2, 2); (1, 1)]%nat w0).1
  = Some (ErrExternal "estargz: invalid footer")
  /\ stdout (main.run (ggcr := registry_ok) (sgz := esgz_1_broken)
              ["ecrane"; "app"; "/etc/motd"] [(0, 0); (2, 2); (1, 1)]%nat w0).2
     = stdout w0.
Proof.
  apply (run_reports_first_worker_error (ggcr := registry_ok)
           (sgz := esgz_1_broken) "ecrane" "app" "/etc/motd"
           [(0, 0); (2, 2); (1, 1)]%nat w0 remote_ok layers_ok probed
           [(0, 0); (2, 2)]%nat [] 1%nat 1%nat (layer_of d1)
           (ErrExternal "estargz: invalid footer")).
  - reflexivity.
  - vm_compute. reflexivity.
  - split.
    + cbn. apply perm_skip, perm_swap.
    + repeat constructor.
  - reflexivity.
  - repeat constructor; cbn; intros l' [= <-]; reflexivity.
  - reflexivity.
  - reflexivity.
Defined.

End OnRegistry.

(** * Further properties of package [remote] *)

Section ReaderContract.
Context {go : GoStd}.

(** [fetch] returns a body or an error, never both and never neither. *)
Theorem fetch_body_xor_error (l : Layer) (begin end_ : Z) (w : World) :
  (is_Some (fetch l begin end_ w).1.1 /\ (fetch l begin end_ w).1.2 = None)
  \/ ((fetch l begin end_ w).1.1 = None /\ is_Some (fetch l begin end_ w).1.2).
Proof.
  rewrite fetch_unfold. destruct (url_Parse (url l)) as [e|]; [right; eauto|].
  pose proof (Do_loop_some (rt l) (ranged_GET (url l) begin end_) 9
                (ranged_GET (url l) begin end_) w) as Hsome.
  unfold client_Do.
  destruct (Do_loop _ _ _ _ w) as [[[res|] [e|]] w']; cbn [fst snd] in *;
    [right; eauto | | right; eauto | by destruct (Hsome eq_refl) as [? [=]]].
  unfold fetch_result.
  destruct (StatusCode res =? StatusOK); [left; eauto|].
  destruct (StatusCode res =? StatusPartialContent); [|right; eauto].
  destruct (mime_ParseMediaType _) as [mt [e|]]; [right; eauto|].
  destruct (String.prefix _ _); [right | left]; eauto.
Qed.

(** A 200 response is read whatever content type it declares.  A
    response with another status than 200 and 206 which the client
    hands over (its status is not one the client follows, or it names
    no [Location]) is an error that carries its status line. *)
Theorem fetch_by_status (l : Layer) (begin end_ : Z) (w : World) (res : Response) :
  url_Parse (url l) = None ->
  rt l (ranged_GET (url l) begin end_) = inl res ->
  (StatusCode res = 200 ->
     (fetch l begin end_ w).1 = (Some (ResBody res), None))
  /\ (StatusCode res <> 200 -> StatusCode res <> 206 ->
     (StatusCode res <> 301 /\ StatusCode res <> 302 /\ StatusCode res <> 303
      /\ StatusCode res <> 307 /\ StatusCode res <> 308)
     \/ ResHeader res !! "Location" = None ->
     (fetch l begin end_ w).1 = (None, Some (ErrUnexpectedStatus (Status res)))).
Proof.
  intros Hu Hres. split.
  - intros Hst.
    rewrite (fetch_on_response l begin end_ w res Hu Hres
               (not_followed res (or_introl Hst))).
    unfold fetch_result, StatusOK. by rewrite Hst.
  - intros H200 H206 Hkeep.
    assert (followed res = false) as Hf.
    { unfold followed, shouldRedirect, Header_Get.
      destruct Hkeep as [(H1 & H2 & H3 & H7 & H8)|Hloc].
      - apply Z.eqb_neq in H1, H2, H3, H7, H8.
        by rewrite H1, H2, H3, H7, H8.
      - rewrite Hloc. apply andb_false_r. }
    rewrite (fetch_on_response l begin end_ w res Hu Hres Hf).
    unfold fetch_result, StatusOK, StatusPartialContent.
    destruct (Z.eqb_spec (StatusCode res) 200); [done|].
    destruct (Z.eqb_spec (StatusCode res) 206); done.
Qed.

Lemma io_ReadFull_bounds (rc : Body) (p : list byte) :
  0 <= (io_ReadFull rc p).1.1 <= len p
  /\ length (io_ReadFull rc p).2 = length p
  /\ skipn (Z.to_nat (io_ReadFull rc p).1.1) (io_ReadFull rc p).2
     = skipn (Z.to_nat (io_ReadFull rc p).1.1) p.
Proof.
  unfold io_ReadFull, len.
  destruct (Nat.leb_spec (length p) (length (data rc))) as [Hle|Hlt];
    cbn [fst snd].
  - rewrite Nat2Z.id. split; [lia|]. split.
    + rewrite length_take. lia.
    + rewrite !drop_ge; [done | lia | rewrite length_take; lia].
  - rewrite Nat2Z.id. split; [lia|]. split.
    + rewrite length_app, length_drop. lia.
    + by rewrite drop_app_length.
Qed.

(** The count [ReadAt] returns lies between 0 and [len(p)]; the buffer
    keeps its length, and its bytes from the count on are untouched. *)
Theorem ReadAt_buffer (l : Layer) (p : list byte) (offset : Z) (w : World) :
  0 <= (ReadAt l p offset w).1.1.1 <= len p
  /\ length (ReadAt l p offset w).1.2 = length p
  /\ skipn (Z.to_nat (ReadAt l p offset w).1.1.1) (ReadAt l p offset w).1.2
     = skipn (Z.to_nat (ReadAt l p offset w).1.1.1) p.
Proof.
  assert (0 <= len p) as Hlen by (unfold len; lia).
  unfold ReadAt. destruct ((len p =? 0) || (offset >? size l)).
  { cbn. split; [lia|done]. }
  unfold mbind, IO_bind.
  destruct (fetch l offset _ w) as [[[rc|] [e|]] w']; cbn [mret IO_ret fst snd];
    try (split; [lia|done]).
  apply io_ReadFull_bounds.
Qed.

Lemma io_ReadFull_nil_iff (rc : Body) (p : list byte) :
  (io_ReadFull rc p).1.2 = None <-> (io_ReadFull rc p).1.1 = len p.
Proof.
  unfold io_ReadFull, len.
  destruct (Nat.leb_spec (length p) (length (data rc))) as [Hle|Hlt];
    cbn [fst snd]; [done|].
  split; [done | lia].
Qed.

(** Outside the guard, [ReadAt] returns a nil error exactly when it has
    filled the whole buffer. *)
Theorem ReadAt_nil_iff_full (l : Layer) (p : list byte) (offset : Z) (w : World) :
  ~ noop l p offset ->
  (ReadAt l p offset w).1.1.2 = None <-> (ReadAt l p offset w).1.1.1 = len p.
Proof.
  intros Hn.
  assert (p <> [] /\ offset <= size l) as [Hp Ho].
  { unfold noop in Hn. split; [tauto | lia]. }
  assert (len p <> 0) as Hlen by (by rewrite len_nil_iff).
  rewrite ReadAt_unfold by done.
  pose proof (fetch_ok_body l offset (window_end offset p) w) as Hx.
  destruct (fetch l offset _ w) as [[[rc|] [e|]] w']; cbn [fst snd] in *.
  - split; [done | intros; lia].
  - apply io_ReadFull_nil_iff.
  - split; [done | intros; lia].
  - by destruct (Hx eq_refl) as [? [=]].
Qed.

(** A URL that [http.NewRequestWithContext] refuses makes the read fail
    before anything is sent; the buffer is left as it was. *)
Theorem ReadAt_bad_url (l : Layer) (p : list byte) (offset : Z) (w : World) (e : error) :
  ~ noop l p offset ->
  url_Parse (url l) = Some e ->
  ReadAt l p offset w = ((0, Some e, p), w).
Proof.
  intros Hn Hu.
  assert (p <> [] /\ offset <= size l) as [Hp Ho].
  { unfold noop in Hn. split; [tauto | lia]. }
  by rewrite ReadAt_unfold, fetch_unfold, Hu.
Qed.


(** When [offset+len(p)-1] does not fit in an int64 the end bound wraps
    around: it is negative, hence below the beginning of the range. *)
Theorem window_end_overflow (offset : Z) (p : list byte) :
  in_int64 offset -> len p <= max_int64 ->
  max_int64 < offset + len p - 1 ->
  window_end offset p = offset + len p - 1 - 2 ^ 64
  /\ window_end offset p < 0.
Proof.
  unfold in_int64, min_int64, max_int64. intros Ho Hp Hov.
  rewrite window_end_wrap. unfold int64.
  replace (offset + len p - 1 + 2 ^ 63)
    with ((offset + len p - 1 - 2 ^ 63) + 1 * 2 ^ 64) by lia.
  rewrite Z_mod_plus_full, Z.mod_small by lia. lia.
Qed.

(** [redirect] returns a URL or an error, never both: with an error the
    URL is empty, and a resolved URL is the blob URL itself or the
    non-empty [Location] of the response to the probe. *)
Theorem redirect_url_or_error (blobURL : string) (tr : RoundTripper) (timeout : Z)
    (w : World) :
  ((redirect blobURL tr timeout w).1.2 = None
   /\ ((redirect blobURL tr timeout w).1.1 = blobURL
       \/ (redirect blobURL tr timeout w).1.1 <> ""
          /\ exists res, tr (probe_GET blobURL) = inl res
               /\ (redirect blobURL tr timeout w).1.1
                  = Header_Get (ResHeader res) "Location"))
  \/ (is_Some (redirect blobURL tr timeout w).1.2
      /\ (redirect blobURL tr timeout w).1.1 = "").
Proof.
  rewrite redirect_unfold. destruct (url_Parse blobURL) as [e|]; [right; eauto|].
  cbn [fst snd]. destruct (tr _) as [res|e] eqn:Hres; [|right; eauto].
  destruct (_ =? 2); [left; eauto|].
  destruct (String.eqb_spec (Header_Get (ResHeader res) "Location") "")
    as [Hl|Hl]; cbn [negb andb]; [right; eauto|].
  destruct (_ =? 3); [|right; eauto].
  left. split; [done|]. right. split; [done|]. by exists res.
Qed.

(** The failures of the probe itself: a URL that cannot be made into a
    request fails before anything is sent, and an error of the
    transport is passed on, wrapped, after the one request. *)
Lemma redirect_probe_failures (blobURL : string) (tr : RoundTripper)
    (timeout : Z) (w : World) (e : error) :
  (url_Parse blobURL = Some e ->
     redirect blobURL tr timeout w = (("", Some (ErrMakeRequest e)), w))
  /\ (url_Parse blobURL = None -> tr (probe_GET blobURL) = inr e ->
     redirect blobURL tr timeout w
     = (("", Some (ErrRequest e)),
        mkWorld (sent w ++ [probe_GET blobURL]) (stdout w))).
Proof.
  split.
  - intros Hu. by rewrite redirect_unfold, Hu.
  - intros Hu Htr. by rewrite redirect_unfold, Hu, Htr.
Qed.

End ReaderContract.

Section EnumeratorContract.
Context {go : GoStd}.

(** What [redirect] returns does not depend on the world it runs in. *)
Lemma redirect_result_fixed blobURL tr timeout w w' :
  (redirect blobURL tr timeout w).1 = (redirect blobURL tr timeout w').1.
Proof. rewrite !redirect_unfold. by destruct (url_Parse blobURL). Qed.

(** A resolution that succeeds has sent its probe. *)
Lemma redirect_ok_world blobURL tr timeout w u w1 :
  redirect blobURL tr timeout w = ((u, None), w1) ->
  w1 = mkWorld (sent w ++ [probe_GET blobURL]) (stdout w).
Proof.
  rewrite redirect_unfold. destruct (url_Parse blobURL); [done|].
  intros Heq. by injection Heq as _ <-.
Qed.

Lemma Layers_loop_ok (r : Remote) (vls : list v1_Layer) (acc : list Layer)
    (w : World) (layers : list Layer) (w' : World) :
  Layers_loop r
    (mkURL (Context_Scheme (ref r)) (Context_RegistryStr (ref r))
       ("/v2/" +:+ Context_RepositoryStr (ref r) +:+ "/"))
    vls acc w = ((layers, None), w') ->
  exists new,
    layers = acc ++ new
    /\ Forall2 (resolved_from r) vls new
    /\ w' = mkWorld (sent w ++ (probe_of r <$> vls)) (stdout w).
Proof.
  revert acc w. induction vls as [|vl vls IH]; intros acc w.
  { intros [= <- <-]. exists []. rewrite !app_nil_r. by destruct w. }
  cbn [Layers_loop].
  destruct (v1_Size vl) as [sz [e|]] eqn:Hsz; [done|].
  destruct (v1_Digest vl) as [d [e|]] eqn:Hd; [done|].
  cbn [Scheme Host Path]. unfold mbind, IO_bind. fold (canonical_URL r d).
  destruct (redirect (canonical_URL r d) (Remote_rt r) (30 * Second) w)
    as [[u [e|]] w1] eqn:Hred; [done|].
  intros Hloop. apply IH in Hloop as (new & -> & Hnew & ->).
  apply redirect_ok_world in Hred as Hw1. subst w1. cbn [sent stdout].
  exists (mkLayer d u (canonical_URL r d) sz (Remote_rt r) :: new).
  split; [by rewrite <- app_assoc|]. split.
  - constructor; [|done]. repeat split; try done. cbn [blobURL url].
    intros w2. rewrite (redirect_result_fixed _ _ _ w2 w). by rewrite Hred.
  - cbn [fmap list_fmap]. unfold probe_of at 2. rewrite Hd. cbn [fst].
    by rewrite <- app_assoc.
Qed.

(** When [Layers] succeeds it returns one handle per layer of the
    image, in the order of the image: each carries the size and the
    digest the registry gives, the canonical blob URL of that digest,
    the transport of the remote, and the URL its probe resolved to. *)
Theorem Layers_in_order (r : Remote) (w : World) (layers : list Layer) (w' : World) :
  Layers r w = ((layers, None), w') ->
  (v1_Layers (image r)).2 = None
  /\ Forall2 (resolved_from r) (v1_Layers (image r)).1 layers.
Proof.
  unfold Layers. destruct (v1_Layers (image r)) as [vls [e|]]; [done|].
  intros Hloop. apply Layers_loop_ok in Hloop as (new & -> & Hnew & _).
  done.
Qed.

(** A successful [Layers] has sent exactly one probe per layer, in the
    order of the image, and has printed nothing. *)
Theorem Layers_probes (r : Remote) (w : World) (layers : list Layer) (w' : World) :
  Layers r w = ((layers, None), w') ->
  sent w' = sent w ++ (probe_of r <$> (v1_Layers (image r)).1)
  /\ stdout w' = stdout w.
Proof.
  unfold Layers. destruct (v1_Layers (image r)) as [vls [e|]]; [done|].
  intros Hloop. apply Layers_loop_ok in Hloop as (new & _ & _ & ->).
  done.
Qed.

Lemma Layers_loop_total (r : Remote) (vls : list v1_Layer) (acc : list Layer)
    (w : World) :
  Forall (resolves r) vls ->
  exists new w',
    Layers_loop r
      (mkURL (Context_Scheme (ref r)) (Context_RegistryStr (ref r))
         ("/v2/" +:+ Context_RepositoryStr (ref r) +:+ "/"))
      vls acc w = ((acc ++ new, None), w')
    /\ length new = length vls.
Proof.
  intros Hall. revert acc w.
  induction Hall as [|vl vls (Hsz & Hd & Hres) _ IH]; intros acc w.
  { exists [], w. by rewrite app_nil_r. }
  cbn [Layers_loop].
  destruct (v1_Size vl) as [sz [e|]]; [done|].
  destruct (v1_Digest vl) as [d [e|]]; [done|].
  cbn [Scheme Host Path fst] in *. unfold mbind, IO_bind.
  fold (canonical_URL r d). specialize (Hres w).
  destruct (redirect (canonical_URL r d) (Remote_rt r) (30 * Second) w)
    as [[u [e|]] w1]; [done|].
  destruct (IH (acc ++ [mkLayer d u (canonical_URL r d) sz (Remote_rt r)]) w1)
    as (new & w' & -> & Hlen).
  exists (mkLayer d u (canonical_URL r d) sz (Remote_rt r) :: new), w'.
  split; [by rewrite <- app_assoc|]. cbn. by rewrite Hlen.
Qed.

(** [Layers] succeeds whenever the registry lists the layers and every
    one of them resolves; with C5 this makes a failing layer the only
    way for an enumeration to fail once the image is listed. *)
Theorem Layers_succeeds (r : Remote) (w : World) :
  (v1_Layers (image r)).2 = None ->
  Forall (resolves r) (v1_Layers (image r)).1 ->
  exists layers w',
    Layers r w = ((layers, None), w')
    /\ length layers = length (v1_Layers (image r)).1.
Proof.
  unfold Layers. destruct (v1_Layers (image r)) as [vls [e|]]; [done|].
  intros _ Hall.
  destruct (Layers_loop_total r vls [] w Hall) as (new & w' & Hloop & Hlen).
  by exists new, w'.
Qed.

Lemma Layers_loop_stops (r : Remote) (pre : list v1_Layer) (bad : v1_Layer)
    (post : list v1_Layer) (acc : list Layer) (w : World) :
  Forall (resolves r) pre ->
  (v1_Size bad).2 = None -> (v1_Digest bad).2 = None ->
  url_Parse (canonical_URL r (v1_Digest bad).1) = None ->
  resolution_fails r bad ->
  exists err,
    Layers_loop r
      (mkURL (Context_Scheme (ref r)) (Context_RegistryStr (ref r))
         ("/v2/" +:+ Context_RepositoryStr (ref r) +:+ "/"))
      (pre ++ bad :: post) acc w
    = (([], Some err),
       mkWorld (sent w ++ (probe_of r <$> pre) ++ [probe_of r bad]) (stdout w)).
Proof.
  intros Hpre Hsz Hd Hu Hbad. revert acc w.
  induction Hpre as [|vl pre (Hvsz & Hvd & Hres) _ IH]; intros acc w.
  - cbn [app Layers_loop fmap list_fmap].
    destruct (v1_Size bad) as [sz [e|]]; [done|].
    destruct (v1_Digest bad) as [d [e|]] eqn:Hdig; [done|].
    cbn [Scheme Host Path fst] in *. unfold mbind, IO_bind.
    fold (canonical_URL r d).
    specialize (Hbad w). rewrite Hdig in Hbad. cbn [fst] in Hbad.
    unfold probe_of. rewrite Hdig. cbn [fst].
    rewrite redirect_unfold, Hu in *. cbn [fst snd] in *.
    destruct (match Remote_rt r (probe_GET (canonical_URL r d)) with
              | inl _ => _ | inr _ => _ end) as [u [e|]]; [|done].
    by exists e.
  - cbn [app Layers_loop].
    destruct (v1_Size vl) as [sz [e|]]; [done|].
    destruct (v1_Digest vl) as [d [e|]] eqn:Hdig; [done|].
    cbn [Scheme Host Path fst] in *. unfold mbind, IO_bind.
    fold (canonical_URL r d). specialize (Hres w).
    destruct (redirect (canonical_URL r d) (Remote_rt r) (30 * Second) w)
      as [[u [e|]] w1] eqn:Hred; [done|].
    apply redirect_ok_world in Hred. subst w1.
    destruct (IH (acc ++ [mkLayer d u (canonical_URL r d) sz (Remote_rt r)])
                (mkWorld (sent w ++ [probe_GET (canonical_URL r d)]) (stdout w)))
      as (err & ->).
    exists err. cbn [sent stdout fmap list_fmap]. unfold probe_of at 3.
    rewrite Hdig. cbn [fst]. by rewrite <- !app_assoc.
Qed.

(** [Layers] stops at the first layer whose probe is answered with a
    failure: the layers before it have been probed, the failing one has
    been probed, and no request is made for the layers after it. *)
Theorem Layers_stops_probing (r : Remote) (w : World) (pre : list v1_Layer)
    (bad : v1_Layer) (post : list v1_Layer) :
  v1_Layers (image r) = (pre ++ bad :: post, None) ->
  Forall (resolves r) pre ->
  (v1_Size bad).2 = None -> (v1_Digest bad).2 = None ->
  url_Parse (canonical_URL r (v1_Digest bad).1) = None ->
  resolution_fails r bad ->
  exists err,
    Layers r w
    = (([], Some err),
       mkWorld (sent w ++ (probe_of r <$> pre) ++ [probe_of r bad]) (stdout w)).
Proof.
  intros Himg Hpre Hsz Hd Hu Hbad. unfold Layers. rewrite Himg.
  by apply Layers_loop_stops.
Qed.

End EnumeratorContract.

(** * Further properties of package [main] *)

Section LookupContract.
Context {go : GoStd} {ggcr : Registry} {sgz : Estargz}.

Import main.





(** The group reports no error exactly when no scheduled worker fails. *)
Lemma Go_all_nil_iff filePath layers sched result g :
  Forall (fun ij => (ij.1 <= ij.2 < length layers)%nat) sched ->
  (Go_all filePath layers sched result g).2 = None
  <-> g = None
      /\ Forall (fun ij => forall l, layers !! ij.1 = Some l ->
                           worker_err filePath l = None) sched.
Proof.
  intros Hrange. revert result g.
  induction Hrange as [|[i j] sched Hij _ IH]; intros result g.
  { cbn. split; [by intros -> | by intros [-> _]]. }
  cbn [fst snd] in Hij. cbn [Go_all].
  destruct (lookup_lt_is_Some_2 layers i ltac:(lia)) as [l Hl].
  destruct (lookup_lt_is_Some_2 layers j ltac:(lia)) as [layer Hj].
  rewrite Hl, Hj.
  pose proof (worker_error_own filePath l layer result) as Hw.
  destruct (worker filePath l layer result) as [result' err]. cbn [snd] in Hw.
  rewrite IH, Forall_cons. cbn [fst]. subst err.
  destruct g as [e|]; cbn [Group_done].
  - split; [by intros [[=] _] | by intros [[=] _]].
  - split.
    + intros [He Hrest]. repeat split; [|done].
      intros l' Hl'. rewrite Hl in Hl'. by injection Hl' as <-.
    + intros [_ [Hhd Hrest]]. split; [by apply Hhd | done].
Qed.

Lemma schedule_covers (layers : list Layer) sched (P : Layer -> Prop) :
  schedule (length layers) sched ->
  Forall (fun ij : nat * nat => forall l, layers !! ij.1 = Some l -> P l) sched
  <-> Forall P layers.
Proof.
  intros [Hperm _]. rewrite !Forall_forall. split.
  - intros Hs l Hl. apply list_elem_of_lookup in Hl as [k Hk].
    assert (k ∈ sched.*1) as Hin.
    { rewrite Hperm. apply elem_of_seq. apply lookup_lt_Some in Hk. lia. }
    apply list_elem_of_fmap in Hin as ([i j] & -> & Hin).
    by apply (Hs (i, j) Hin).
  - intros Hl ij _ l Hk. apply Hl. by eapply list_elem_of_lookup_2.
Qed.




(** [run] returns nil exactly when every worker does: one failing
    worker, wherever it comes in the schedule, makes the run fail. *)
Theorem run_nil_iff_workers_ok (prog imageName filePath : string)
    (sched : list (nat * nat)) (w : World) (r : Remote) (layers : list Layer)
    (w1 : World) :
  New imageName = inl r ->
  Layers r w = ((layers, None), w1) ->
  schedule (length layers) sched ->
  (run [prog; imageName; filePath] sched w).1 = None
  <-> Forall (fun l => worker_err filePath l = None) layers.
Proof.
  intros Hnew Hlayers Hsched.
  rewrite (run_unfold prog imageName filePath sched w r Hnew), Hlayers.
  rewrite <- (schedule_covers layers sched _ Hsched).
  pose proof (Go_all_nil_iff filePath layers sched ∅ None (proj2 Hsched)) as Hgo.
  destruct (Go_all filePath layers sched ∅ None) as [result [e|]];
    cbn [fst snd] in *.
  - split; [done|]. intros Hall. by apply Hgo.
  - split; [|done]. intros _. by apply Hgo.
Qed.


(** A successful [run] prints the recorded payload of every layer whose
    digest is in the mapping, topmost layer first, and nothing else. *)
Theorem run_prints_every_hit (prog imageName filePath : string)
    (sched : list (nat * nat)) (w : World) (r : Remote) (layers : list Layer)
    (w1 : World) (result : gmap Hash (list byte)) :
  New imageName = inl r ->
  Layers r w = ((layers, None), w1) ->
  Go_all filePath layers sched ∅ None = (result, None) ->
  stdout (run [prog; imageName; filePath] sched w).2
  = stdout w ++ payloads_top_down layers result.
Proof.
  intros Hnew Hlayers Hgo.
  rewrite (run_unfold prog imageName filePath sched w r Hnew), Hlayers, Hgo.
  rewrite scan_prints by done. rewrite firstn_all. cbn [snd stdout].
  pose proof (Layers_stdout r w) as Hout. rewrite Hlayers in Hout.
  cbn [snd] in Hout. by rewrite Hout.
Qed.

(** Whatever makes [run] return an error, it has printed nothing. *)
Theorem run_silent_on_error (prog imageName filePath : string)
    (sched : list (nat * nat)) (w : World) :
  (run [prog; imageName; filePath] sched w).1 <> None ->
  stdout (run [prog; imageName; filePath] sched w).2 = stdout w.
Proof.
  unfold run.
  change (len [prog; imageName; filePath] =? 3) with true. cbn [negb nth].
  destruct (New imageName) as [r|e]; [|done].
  unfold mbind, IO_bind.
  pose proof (Layers_stdout r w) as Hout.
  destruct (Layers r w) as [[layers [e|]] w1]; [done|].
  destruct (Go_all _ _ _ _ _) as [result [e|]]; [done|].
  by destruct (scan _ _ _ w1).
Qed.

(** With any number of arguments other than three, [run] prints the
    usage line and returns nil: it does not look at the registry. *)
Theorem run_usage (args : list string) (sched : list (nat * nat)) (w : World) :
  length args <> 3%nat ->
  run args sched w
  = (None, mkWorld (sent w) (stdout w ++ ["Usage: ecrane IMAGE_NAME FILE_PATH"])).
Proof.
  intros Hlen. unfold run.
  replace (len args =? 3) with false; [done|].
  symmetry. apply Z.eqb_neq. unfold len. lia.
Qed.

End LookupContract.

(** ** The further properties on the fixtures *)

Section ContractOnFixture.
Import Fixture.
Local Existing Instance Sim.std.

Lemma fetch_by_status_witness :
  (StatusCode not_found_404 = 200 ->
     (fetch (layer_with not_found_404) 0 1 w0).1
     = (Some (ResBody not_found_404), None))
  /\ (StatusCode not_found_404 <> 200 -> StatusCode not_found_404 <> 206 ->
     (StatusCode not_found_404 <> 301 /\ StatusCode not_found_404 <> 302
      /\ StatusCode not_found_404 <> 303
      /\ StatusCode not_found_404 <> 307 /\ StatusCode not_found_404 <> 308)
     \/ ResHeader not_found_404 !! "Location" = None ->
     (fetch (layer_with not_found_404) 0 1 w0).1
     = (None, Some (ErrUnexpectedStatus (Status not_found_404)))).
Proof.
  apply (fetch_by_status (layer_with not_found_404) 0 1 w0 not_found_404).
  - reflexivity.
  - reflexivity.
Defined.

Lemma ReadAt_nil_iff_full_witness :
  (ReadAt L (zeros 3) 4 w0).1.1.2 = None
  <-> (ReadAt L (zeros 3) 4 w0).1.1.1 = len (zeros 3).
Proof.
  apply (ReadAt_nil_iff_full L (zeros 3) 4 w0).
  intros [Hp|Hs]; [discriminate Hp | vm_compute in Hs; discriminate Hs].
Defined.

Lemma ReadAt_bad_url_witness :
  ReadAt layer_bad_url (zeros 3) 0 w0
  = ((0, Some (ErrExternal "net/url: invalid control character in URL"),
      zeros 3), w0).
Proof.
  apply (ReadAt_bad_url layer_bad_url (zeros 3) 0 w0).
  - intros [Hp|Hs]; [discriminate Hp | vm_compute in Hs; discriminate Hs].
  - reflexivity.
Defined.


Lemma window_end_overflow_witness :
  window_end max_int64 (zeros 2) = max_int64 + len (zeros 2) - 1 - 2 ^ 64
  /\ window_end max_int64 (zeros 2) < 0.
Proof.
  apply (window_end_overflow max_int64 (zeros 2)).
  - vm_compute. split; discriminate.
  - vm_compute. discriminate.
  - reflexivity.
Defined.

Lemma Layers_in_order_witness :
  (v1_Layers (image remote_ok)).2 = None
  /\ Forall2 (resolved_from remote_ok) (v1_Layers (image remote_ok)).1 layers_ok.
Proof.
  apply (Layers_in_order remote_ok w0 layers_ok probed).
  vm_compute. reflexivity.
Defined.

Lemma Layers_probes_witness :
  sent probed = sent w0 ++ (probe_of remote_ok <$> (v1_Layers (image remote_ok)).1)
  /\ stdout probed = stdout w0.
Proof.
  apply (Layers_probes remote_ok w0 layers_ok probed).
  vm_compute. reflexivity.
Defined.

Lemma Layers_succeeds_witness :
  exists layers w',
    Layers remote_ok w0 = ((layers, None), w')
    /\ length layers = length (v1_Layers (image remote_ok)).1.
Proof.
  apply (Layers_succeeds remote_ok w0).
  - reflexivity.
  - repeat constructor; intros w; reflexivity.
Defined.

Lemma Layers_stops_probing_witness :
  exists err,
    Layers remote_d1_missing w0
    = (([], Some err),
       mkWorld (sent w0 ++ (probe_of remote_d1_missing <$> [v1_layer d0])
                ++ [probe_of remote_d1_missing (v1_layer d1)]) (stdout w0)).
Proof.
  apply (Layers_stops_probing remote_d1_missing w0 [v1_layer d0] (v1_layer d1)
           [v1_layer d2]).
  - reflexivity.
  - repeat constructor; intros w; reflexivity.
  - reflexivity.
  - reflexivity.
  - reflexivity.
  - intros w. vm_compute. discriminate.
Defined.

Lemma schedule_201 : main.schedule 3 [(2, 2); (0, 0); (1, 1)]%nat.
Proof.
  split.
  - cbn. change [2; 0; 1]%nat with ([2]%nat ++ [0; 1]%nat).
    change [0; 1; 2]%nat with ([0; 1]%nat ++ [2]%nat).
    apply Permutation_app_comm.
  - repeat constructor.
Qed.


(** The top layer of the fixture is the topmost one that holds the
    path, and its payload is the first line printed. *)
Lemma run_prints_top_layer_first :
  topmost_payload (sgz := esgz_02) "/etc/motd" layers_ok = Some new_payload
  /\ head (stdout (main.run (ggcr := registry_ok) (sgz := esgz_02)
                     ["ecrane"; "app"; "/etc/motd"]
                     [(2, 2); (0, 0); (1, 1)]%nat w0).2) = Some "new".
Proof. by vm_compute. Qed.

(** With one loop variable for all iterations, workers that finish
    after the loop has ended store under the digest of the top layer:
    in this order the payload of the bottom layer is the only line
    printed, though the top layer holds the path too. *)
Lemma run_late_workers_store_under_top :
  main.schedule 3 [(2, 2); (0, 2); (1, 2)]%nat
  /\ main.run (ggcr := registry_ok) (sgz := esgz_02)
       ["ecrane"; "app"; "/etc/motd"] [(2, 2); (0, 2); (1, 2)]%nat w0
     = (None, mkWorld (sent probed) ["old"]).
Proof.
  split; [|by vm_compute]. split.
  - cbn. change [2; 0; 1]%nat with ([2]%nat ++ [0; 1]%nat).
    change [0; 1; 2]%nat with ([0; 1]%nat ++ [2]%nat).
    apply Permutation_app_comm.
  - repeat constructor.
Qed.

Lemma run_nil_iff_workers_ok_witness :
  (main.run (ggcr := registry_ok) (sgz := esgz_1_broken)
     ["ecrane"; "app"; "/etc/motd"] [(2, 2); (0, 0); (1, 1)]%nat w0).1 = None
  <-> Forall (fun l => worker_err (sgz := esgz_1_broken) "/etc/motd" l = None)
        layers_ok.
Proof.
  apply (run_nil_iff_workers_ok (ggcr := registry_ok) (sgz := esgz_1_broken)
           "ecrane" "app" "/etc/motd" [(2, 2); (0, 0); (1, 1)]%nat w0
           remote_ok layers_ok probed).
  - reflexivity.
  - vm_compute. reflexivity.
  - exact schedule_201.
Defined.


Lemma run_prints_every_hit_witness :
  stdout (main.run (ggcr := registry_ok) (sgz := esgz_02)
            ["ecrane"; "app"; "/etc/motd"] [(2, 2); (0, 0); (1, 1)]%nat w0).2
  = stdout w0 ++ payloads_top_down layers_ok motd_recorded.
Proof.
  apply (run_prints_every_hit (ggcr := registry_ok) (sgz := esgz_02)
           "ecrane" "app" "/etc/motd" [(2, 2); (0, 0); (1, 1)]%nat w0
           remote_ok layers_ok probed motd_recorded).
  - reflexivity.
  - vm_compute. exact eq_refl.
  - vm_compute. exact eq_refl.
Defined.

Lemma run_silent_on_error_witness :
  stdout (main.run (ggcr := registry_ok) (sgz := esgz_1_broken)
            ["ecrane"; "app"; "/etc/motd"] [(2, 2); (0, 0); (1, 1)]%nat w0).2
  = stdout w0.
Proof.
  apply (run_silent_on_error (ggcr := registry_ok) (sgz := esgz_1_broken)
           "ecrane" "app" "/etc/motd" [(2, 2); (0, 0); (1, 1)]%nat w0).
  vm_compute. discriminate.
Defined.

Lemma run_usage_witness :
  main.run (ggcr := registry_ok) (sgz := esgz_02) ["ecrane"; "app"] [] w0
  = (None, mkWorld (sent w0)
             (stdout w0 ++ ["Usage: ecrane IMAGE_NAME FILE_PATH"])).
Proof.
  apply (run_usage (ggcr := registry_ok) (sgz := esgz_02) ["ecrane"; "app"] [] w0).
  discriminate.
Defined.

(** The client of [fetch] goes on to the [Location] of a 302: the read
    ends on the CDN, with the range repeated on the second request. *)
Lemma ReadAt_follows_redirect :
  ReadAt layer_to_cdn (zeros 3) 0 w0
  = ((3, None, [x68; x65; x6c]%byte),
     mkWorld
       [mkRequest "GET" blob_url
          {[ "Range" := ["bytes=0-2"]; "Accept-Encoding" := ["identity"] ]}
          false;
        mkRequest "GET" cdn_url
          {[ "Range" := ["bytes=0-2"]; "Accept-Encoding" := ["identity"];
             "Referer" := [blob_url] ]}
          false] []).
Proof. by vm_compute. Qed.

(** A server that redirects for ever is asked ten times; the read then
    fails with the error of the redirect policy. *)
Lemma ReadAt_stops_after_ten_requests :
  length (sent (ReadAt (layer_with (found_302 [cdn_url])) (zeros 3) 0 w0).2)
  = 10%nat
  /\ (ReadAt (layer_with (found_302 [cdn_url])) (zeros 3) 0 w0).1
     = ((0, Some (ErrURL "GET" cdn_url
                    (ErrExternal "stopped after 10 redirects"))), zeros 3).
Proof. by vm_compute. Qed.

(** A body that ends early, after one byte, is an unexpected end of
    file, also when the stream reports its end as an error. *)
Lemma io_ReadFull_early_end :
  io_ReadFull (mkBody [x68]%byte (Some EOF)) (zeros 3)
  = ((1, Some ErrUnexpectedEOF), [x68; x00; x00]%byte)
  /\ io_ReadFull (mkBody [x68]%byte None) (zeros 3)
     = ((1, Some ErrUnexpectedEOF), [x68; x00; x00]%byte)
  /\ io_ReadFull (mkBody [] None) (zeros 3) = ((0, Some EOF), zeros 3).
Proof. by vm_compute. Qed.

End ContractOnFixture.
